(** * pykg-config: the metadata resolution engine

    A shallow embedding of [pykg_config/pcfile.py], [dependency.py],
    [packagespeclist.py] and [pkgsearcher.py], and the properties of the
    specification settled against it.

    Conventions of the embedding.
    - A Python [str] is a [string]; a character is a code point below 256,
      classified the way CPython classifies it ([str.isspace], the [\w] and
      [\s] classes of [re] under [re.U], [str.lower]).
    - A Python [dict] with string keys is a [gmap string _]; a [list] is a
      [list].
    - A function that can raise returns a [result]; the exception raised is
      a constructor of [exn]. *)

From Stdlib Require Import Ascii String NArith.
From stdpp Require Import base option list strings gmap fin_maps.

Local Open Scope string_scope.

(* ===================================================================== *)
(** ** Characters *)

Definition code (c : ascii) : N := N_of_ascii c.

Definition in_range (lo hi : N) (c : ascii) : bool :=
  ((lo <=? code c) && (code c <=? hi))%N.

(** [str.isspace], and the class [\s] of [re]: TAB, LF, VT, FF, CR, the
    separators FS, GS, RS, US, the space, NEL and the no-break space. *)
Definition is_space (c : ascii) : bool :=
  in_range 9 13 c || in_range 28 32 c
  || (code c =? 133)%N || (code c =? 160)%N.

(** The class [\w] of [re] under [re.U]: alphanumeric code points and the
    underscore. *)
Definition is_word (c : ascii) : bool :=
  in_range 48 57 c || in_range 65 90 c || (code c =? 95)%N
  || in_range 97 122 c || (code c =? 170)%N || in_range 178 179 c
  || (code c =? 181)%N || in_range 185 186 c || in_range 188 190 c
  || in_range 192 214 c || in_range 216 246 c || in_range 248 255 c.

(** [str.lower] on one character. *)
Definition lower_char (c : ascii) : ascii :=
  if in_range 65 90 c || in_range 192 214 c || in_range 216 222 c
  then ascii_of_N (code c + 32) else c.

Definition LF : ascii := ascii_of_N 10.
Definition eqb_char (a b : ascii) : bool := Ascii.eqb a b.

(* ===================================================================== *)
(** ** Python string operations *)

Fixpoint lower (s : string) : string :=
  match s with
  | "" => ""
  | String c s' => String (lower_char c) (lower s')
  end.

(** [s.rstrip()] *)
Fixpoint rstrip (s : string) : string :=
  match s with
  | "" => ""
  | String c s' =>
      match rstrip s' with
      | "" => if is_space c then "" else String c ""
      | r => String c r
      end
  end.

(** [s.lstrip()] *)
Fixpoint lstrip (s : string) : string :=
  match s with
  | "" => ""
  | String c s' => if is_space c then lstrip s' else s
  end.

(** [s.strip()] *)
Definition strip (s : string) : string := rstrip (lstrip s).

(** [s[-1]], [None] standing for the [IndexError] of the empty string. *)
Fixpoint last_char (s : string) : option ascii :=
  match s with
  | "" => None
  | String c "" => Some c
  | String _ s' => last_char s'
  end.

(** [s[:n]] for [n >= 0]. *)
Definition slice_to (n : nat) (s : string) : string := substring 0 n s.

(** [s[:-k]] for [k > 0]: the string without its last [k] characters, the
    empty string when it is shorter. *)
Definition slice_drop_last (k : nat) (s : string) : string :=
  slice_to (String.length s - k) s.

(** [s.find(c)] for a one-character needle. *)
Fixpoint find (c : ascii) (s : string) : option nat :=
  match s with
  | "" => None
  | String d s' => if eqb_char d c then Some 0 else S <$> find c s'
  end.

(** The longest prefix of [s] whose characters satisfy [p], and the rest:
    what a greedy character-class repetition of [re] consumes. *)
Fixpoint span (p : ascii -> bool) (s : string) : string * string :=
  match s with
  | "" => ("", "")
  | String c s' =>
      if p c then let '(a, b) := span p s' in (String c a, b) else ("", s)
  end.

(** Every character of [s] satisfies [p]. *)
Fixpoint all_chars (p : ascii -> bool) (s : string) : bool :=
  match s with
  | "" => true
  | String c s' => p c && all_chars p s'
  end.

Definition is_empty_str (s : string) : bool :=
  match s with "" => true | _ => false end.

(** [not l] for a list. *)
Definition is_nil {A} (l : list A) : bool :=
  match l with [] => true | _ => false end.

(* ===================================================================== *)
(** ** Exceptions and results *)

Inductive exn : Type :=
  | EmptyPackageFileError (filename : string)
  | MultiplyDefinedValueError (line : string)
  | TrailingContinuationCharError (line : string)
  | UndefinedVarError (variable : string) (pcfile : option string)
  | PackageNotFoundError (pkgname : string)
  | NoOpenableFilesError (pkgname : string)
  | IOError (strerror : string)
  | IndexError
  | AttributeError
  | OtherError (what : string).

Inductive result (A : Type) : Type :=
  | Ok (a : A)
  | Raise (e : exn).
Arguments Ok {A} a.
Arguments Raise {A} e.

Definition bind {A B} (m : result A) (k : A -> result B) : result B :=
  match m with
  | Ok a => k a
  | Raise e => Raise e
  end.

Notation "x <- m ;; k" := (bind m (fun x => k))
  (at level 100, m at next level, right associativity).

Definition is_ok {A} (m : result A) : bool :=
  match m with Ok _ => true | Raise _ => false end.

(** [class NoOpenableFilesError(PackageNotFoundError)]: the handler
    [except PackageNotFoundError] catches both, the classes differ. *)
Definition isinstance_PackageNotFoundError (e : exn) : bool :=
  match e with
  | PackageNotFoundError _ | NoOpenableFilesError _ => true
  | _ => false
  end.

(* ===================================================================== *)
(** ** pcfile.py: merge_lines *)

(** [s[-1] == cont_char], on a non-empty [s]. *)
Definition ends_with (cont_char : string) (s : string) : result bool :=
  match last_char s with
  | None => Raise IndexError
  | Some c => Ok (bool_decide (String c "" = cont_char))
  end.

(** The two nested [while] loops of [merge_lines], by recursion on the
    lines from index [ii] on.  [pending = None] is the head of the outer
    loop.  [pending = Some p] is the body of the inner loop after
    [new_line = new_line[:-2] + " "] and [ii += 1], where [p] is that
    [new_line]: the next step reads [lines[ii]], an [IndexError] when no
    line is left. *)
Fixpoint merge_loop (cont_char : string) (pending : option string)
    (lines : list string) : result (list string) :=
  match pending, lines with
  | None, [] => Ok []
  | Some _, [] => Raise IndexError
  | None, l :: rest =>
      let new_line := rstrip l in
      if is_empty_str new_line then merge_loop cont_char None rest
      else
        c <- ends_with cont_char new_line;;
        if c then
          merge_loop cont_char
            (Some (slice_drop_last 2 new_line +:+ " ")) rest
        else
          result <- merge_loop cont_char None rest;;
          Ok (new_line :: result)
  | Some p, l :: rest =>
      let new_line := p +:+ rstrip l in
      c <- ends_with cont_char new_line;;
      if c then
        merge_loop cont_char
          (Some (slice_drop_last 2 new_line +:+ " ")) rest
      else
        result <- merge_loop cont_char None rest;;
        Ok (new_line :: result)
  end.

(** [lines[-1]] *)
Definition last_line (lines : list string) : result string :=
  match last lines with
  | None => Raise IndexError
  | Some l => Ok l
  end.

Definition merge_lines (lines : list string) (cont_char : string)
    : result (list string) :=
  l <- last_line lines;;
  c <- ends_with cont_char l;;
  if c then Raise (TrailingContinuationCharError l)
  else merge_loop cont_char None lines.

(** The continuation character [parse_pc_file_lines] passes. *)
Definition backslash : string := "\".
Definition newline : string := String LF "".


(* ===================================================================== *)
(** ** pcfile.py: strip_comments and split_pc_file_line *)

Definition strip_comments (line : string) : string :=
  match find "#" line with
  | None => line
  | Some comment_start => slice_to comment_start line
  end.

(** [VARIABLE = 0] and [PROPERTY = 1]. *)
Inductive line_type : Type := VARIABLE | PROPERTY.

(** The class [[\w.]] of the two line grammars. *)
Definition is_key_char (c : ascii) : bool := is_word c || eqb_char c ".".

(** The class [.] of [re] without [re.S]: anything but a line feed. *)
Definition is_dot (c : ascii) : bool := negb (eqb_char c LF).

(** [re.match] of [(?P<key>[\w.]+)<sep>\s*(?P<value>.+)?] at the start of
    [line], for a separator outside [[\w.]]: the groups [key] and [value]
    of the match ([value] is [None] when the optional group took nothing).
    The separator is no key character, so only the longest key can be
    followed by it; after the longest run of white space the next
    character, if any, is no line feed, so [.+] takes the line up to the
    first line feed. *)
Definition re_key_value (sep : ascii) (line : string)
    : option (string * option string) :=
  let '(key, rest) := span is_key_char line in
  if is_empty_str key then None
  else
    match rest with
    | String c rest' =>
        if eqb_char c sep then
          let '(_, after_space) := span is_space rest' in
          let '(value, _) := span is_dot after_space in
          Some (key, if is_empty_str value then None else Some value)
        else None
    | "" => None
    end.

Definition property_re : string -> option (string * option string) :=
  re_key_value ":".
Definition variable_re : string -> option (string * option string) :=
  re_key_value "=".

(** [x or ""] for [x] a string or [None]. *)
Definition or_empty (x : option string) : string :=
  match x with
  | Some (String c s) => String c s
  | _ => ""
  end.

(** The triple [key, value, type], all three [None] on a malformed line. *)
Definition split_pc_file_line (line : string)
    : option string * option string * option line_type :=
  match property_re line with
  | Some (key, value) => (Some key, Some (or_empty value), Some PROPERTY)
  | None =>
      match variable_re line with
      | Some (var, value) => (Some var, Some (or_empty value), Some VARIABLE)
      | None => (None, None, None)
      end
  end.

(* ===================================================================== *)
(** ** pcfile.py: parse_line and parse_pc_file_lines *)

(** The four values [parse_line] threads through the loop. *)
Record parse_state : Type := mk_state {
  raw_vars : gmap string string;
  vars : gmap string string;
  props : gmap string (option string);
  seen_props : list string
}.

(** A method call on a value that is [None] raises [AttributeError]. *)
Definition attr {A} (x : option A) : result A :=
  match x with
  | Some a => Ok a
  | None => Raise AttributeError
  end.

Section Parser.

(** [pykg_config.props.empty_raw_props]: the known property keys with
    their defaults ([None] is Python's [None]).  The module is not among
    the sources, the table is a parameter. *)
Variable empty_raw_props : gmap string (option string).

(** [pykg_config.substitute.substitute], not among the sources either:
    the text, the variables so far, the globals. *)
Variable substitute :
  string -> gmap string string -> gmap string string -> result string.

Definition parse_line (line : string) (st : parse_state)
    (globals : gmap string string) : result parse_state :=
  if is_empty_str line then Ok st
  else
    let '(key, value, type) := split_pc_file_line line in
    match type with
    | Some VARIABLE =>
        key <- attr key;;
        value <- attr value;;
        if bool_decide (is_Some (vars st !! key)) then
          Raise (MultiplyDefinedValueError key)
        else
          match globals !! key with
          | Some g =>
              v <- substitute g (vars st) globals;;
              Ok (mk_state (<[key := strip value]> (raw_vars st))
                           (<[key := v]> (vars st))
                           (props st) (seen_props st))
          | None =>
              v <- substitute (strip value) (vars st) globals;;
              Ok (mk_state (<[key := strip value]> (raw_vars st))
                           (<[key := v]> (vars st))
                           (props st) (seen_props st))
          end
    | Some PROPERTY =>
        key <- attr key;;
        if bool_decide (key ∈ seen_props st) then
          Raise (MultiplyDefinedValueError key)
        else
          match empty_raw_props !! lower key with
          | Some default =>
              let value :=
                match value with
                | None => default
                | Some v => Some v
                end in
              Ok (mk_state (raw_vars st) (vars st)
                           (<[lower key := value]> (props st))
                           (seen_props st ++ [key]))
          | None => Ok st
          end
    | None => Ok st
    end.

(** The [for] loop of [parse_pc_file_lines] over the merged lines. *)
Fixpoint parse_lines (merged : list string) (st : parse_state)
    (globals : gmap string string) : result parse_state :=
  match merged with
  | [] => Ok st
  | line :: rest =>
      st' <- parse_line (strip (strip_comments line)) st globals;;
      parse_lines rest st' globals
  end.

Definition initial_state : parse_state :=
  mk_state ∅ ∅ empty_raw_props [].

Definition parse_pc_file_lines (lines : list string)
    (globals : gmap string string)
    : result (gmap string string * gmap string string
              * gmap string (option string)) :=
  merged <- merge_lines lines backslash;;
  st <- parse_lines merged initial_state globals;;
  Ok (raw_vars st, vars st, props st).

End Parser.


(* ===================================================================== *)
(** ** operators and version: the interfaces the sources import *)

(** Modelled from the spec: [pykg_config.operators] is not among the
    sources.  The specification gives the operator of a constraint as one
    of ALWAYS_MATCH, LT, LE, EQ, NE, GE, GT; the names are those
    [dependency.py] uses. *)
Inductive Operator : Type :=
  | ALWAYS_MATCH
  | LESS_THAN
  | LESS_THAN_EQUAL
  | EQUAL
  | NOT_EQUAL
  | GREATER_THAN_EQUAL
  | GREATER_THAN.

Global Instance Operator_eq_dec : EqDecision Operator.
Proof. solve_decision. Defined.

(** [operator_to_text] and [text_to_operator] of the same module. *)
Class OperatorText : Type := {
  operator_to_text : Operator -> string;
  text_to_operator : string -> result Operator
}.

(** [pykg_config.version.Version], not among the sources: the constructor
    with and without a text, [is_empty], [__str__] and the six rich
    comparisons. *)
Class VersionOps (Version : Type) : Type := {
  Version_of : string -> Version;
  Version_empty : Version;
  version_is_empty : Version -> bool;
  version_str : Version -> string;
  version_lt : Version -> Version -> bool;
  version_le : Version -> Version -> bool;
  version_eq : Version -> Version -> bool;
  version_ne : Version -> Version -> bool;
  version_ge : Version -> Version -> bool;
  version_gt : Version -> Version -> bool
}.

(* ===================================================================== *)
(** ** dependency.py *)

Record Dependency (Version : Type) : Type := mk_dep {
  name : string;
  operator : Operator;
  version : Version
}.
Arguments mk_dep {Version} _ _ _.
Arguments name {Version} _.
Arguments operator {Version} _.
Arguments version {Version} _.

Section DependencyMethods.

Context {Version : Type} `{VersionOps Version} `{OperatorText}.

(** [Dependency.__eq__] *)
Definition dep_eq (self other : Dependency Version) : bool :=
  bool_decide (name self = name other)
  && bool_decide (operator self = operator other)
  && version_eq (version self) (version other).

(** [Dependency.__str__] *)
Definition dep_str (self : Dependency Version) : string :=
  if version_is_empty (version self) then name self
  else name self +:+ operator_to_text (operator self)
       +:+ version_str (version self).

(** [Dependency.meets_requirement]; the final [return False] of the
    source is for a value that is none of the seven operators. *)
Definition meets_requirement (self : Dependency Version)
    (other_version : Version) : bool :=
  match operator self with
  | ALWAYS_MATCH => true
  | LESS_THAN => version_lt other_version (version self)
  | LESS_THAN_EQUAL => version_le other_version (version self)
  | EQUAL => version_eq other_version (version self)
  | NOT_EQUAL => version_ne other_version (version self)
  | GREATER_THAN_EQUAL => version_ge other_version (version self)
  | GREATER_THAN => version_gt other_version (version self)
  end.

End DependencyMethods.

(* ===================================================================== *)
(** ** packagespeclist.py *)

(** The three character classes of the package-spec pattern:
    [[^\s,!=<>]], [[!=<>]] and [[^\s,]]. *)
Definition is_op_char (c : ascii) : bool :=
  eqb_char c "!" || eqb_char c "=" || eqb_char c "<" || eqb_char c ">".
Definition is_version_char (c : ascii) : bool :=
  negb (is_space c) && negb (eqb_char c ",").
Definition is_name_char (c : ascii) : bool :=
  is_version_char c && negb (is_op_char c).

(** [s] starts with an operator character. *)
Definition starts_with_op (s : string) : bool :=
  match s with
  | String c _ => is_op_char c
  | "" => false
  end.

(** [s[-1:]] *)
Definition last_str (s : string) : string :=
  match last_char s with
  | Some c => String c ""
  | None => ""
  end.

(** One match of
    [(?P<name>[^\s,!=<>]+)(,|\s*(?P<operator>[!=<>]+)\s*(?P<version>[^\s,]+))?]
    at the start of [s]: the four groups, unset groups as the empty string
    the way [re.findall] reports them, and the text after the match.
    There is a match exactly when [s] starts with a name character, and
    the name is the longest run of them, the group being optional.  The
    group is tried before it is skipped: a comma; else white space, the
    longest run of operator characters, white space and a run of version
    characters; when no version character follows, the engine backtracks
    into the operator run and gives its last character to the version,
    which needs a run of two operator characters at least.
    [match_group] is the second alternative of the group, and the match
    without the group when that alternative fails. *)
Definition match_group (nm rest : string)
    : (string * string * string * string) * string :=
  let '(w1, r1) := span is_space rest in
  let '(o, r2) := span is_op_char r1 in
  if is_empty_str o then ((nm, "", "", ""), rest)
  else
    let '(w2, r3) := span is_space r2 in
    let '(v, r4) := span is_version_char r3 in
    if negb (is_empty_str v) then
      ((nm, w1 +:+ o +:+ w2 +:+ v, o, v), r4)
    else if (2 <=? String.length o)%nat then
      ((nm, w1 +:+ o, slice_drop_last 1 o, last_str o), r2)
    else ((nm, "", "", ""), rest).

Definition match_spec (s : string)
    : option ((string * string * string * string) * string) :=
  let '(nm, rest) := span is_name_char s in
  if is_empty_str nm then None
  else
    match rest with
    | String c rest' =>
        if eqb_char c "," then Some ((nm, ",", "", ""), rest')
        else Some (match_group nm rest)
    | "" => Some (match_group nm rest)
    end.

(** [re.findall]: scan from the left, at a position without a match go on
    one character, after a match go on behind it.  A match takes a
    character at least, so [fuel] as long as the string is enough
    ([findall_fuel_enough]). *)
Fixpoint findall_fuel (fuel : nat) (s : string)
    : list (string * string * string * string) :=
  match fuel with
  | 0 => []
  | S fuel' =>
      match s with
      | "" => []
      | String _ s' =>
          match match_spec s with
          | Some (groups, rest) => groups :: findall_fuel fuel' rest
          | None => findall_fuel fuel' s'
          end
      end
  end.

Definition findall (s : string) : list (string * string * string * string) :=
  findall_fuel (String.length s) s.

Section PackageSpecList.

Context {Version : Type} `{VersionOps Version} `{OperatorText}.

(** The body of the [for] loop: one tuple of groups to a [Dependency]. *)
Definition dependency_of_match (package : string * string * string * string)
    : result (Dependency Version) :=
  let '(p0, _, p2, p3) := package in
  let name := p0 in
  operator <- text_to_operator p2;;
  let version :=
    if negb (is_empty_str p3) then Version_of p3 else Version_empty in
  Ok (mk_dep name operator version).

Fixpoint dependencies_of_matches
    (matches : list (string * string * string * string))
    : result (list (Dependency Version)) :=
  match matches with
  | [] => Ok []
  | package :: rest =>
      d <- dependency_of_match package;;
      ds <- dependencies_of_matches rest;;
      Ok (d :: ds)
  end.

Definition parse_package_spec_list (value : string)
    : result (list (Dependency Version)) :=
  dependencies_of_matches (findall (strip value)).

End PackageSpecList.

(* ===================================================================== *)
(** ** pkgsearcher.py *)

(** The two options of [Options()] that [search_for_pcfile] reads. *)
Record Options : Type := mk_options {
  prefer_uninstalled : bool;
  uninstalled_only : bool
}.

(** [os.path.isfile] and [os.path.splitext]: the file system the search
    runs on. *)
Class OsPath : Type := {
  isfile : string -> bool;
  splitext : string -> string * string
}.

(** [pykg_config.package.Package], not among the sources: the constructor
    [Package(pcfile, globals)], which reads and parses the file and can
    raise, and [pkg.properties["version"]]. *)
Class PackageOps (Package Version : Type) : Type := {
  Package_new : string -> gmap string string -> result Package;
  properties_version : Package -> Version
}.

(** The attribute of a [PkgSearcher] the search reads. *)
Record PkgSearcher : Type := mk_searcher {
  _known_pkgs : gmap string (list string)
}.

Definition search_for_pcfile (self : PkgSearcher) (options : Options)
    (pkgname : string) : list string :=
  let plain :=
    match _known_pkgs self !! pkgname with
    | Some paths => paths
    | None => []
    end in
  if prefer_uninstalled options then
    match _known_pkgs self !! (pkgname +:+ "-uninstalled") with
    | Some paths => paths
    | None => if uninstalled_only options then [] else plain
    end
  else plain.

Section Search.

Context {Version Package : Type} `{VersionOps Version} `{OperatorText}
        `{OsPath} `{PackageOps Package Version}.

(** The loop over [pcfiles] with its [try]: a file that cannot be
    opened is skipped, an undefined variable is raised again with the
    path of the file, any other exception leaves the function. *)
Fixpoint load_packages (pcfiles : list string) (globals : gmap string string)
    (pkgs : list Package) : result (list Package) :=
  match pcfiles with
  | [] => Ok pkgs
  | pcfile :: rest =>
      match Package_new pcfile globals with
      | Ok pkg => load_packages rest globals (pkgs ++ [pkg])
      | Raise (IOError _) => load_packages rest globals pkgs
      | Raise (UndefinedVarError variable _) =>
          Raise (UndefinedVarError variable (Some pcfile))
      | Raise e => Raise e
      end
  end.

(** The candidate paths: the name itself when it is a [.pc] file on
    disk, the index otherwise. *)
Definition candidate_pcfiles (self : PkgSearcher) (options : Options)
    (dep : Dependency Version) : list string :=
  if isfile (name dep) && bool_decide ((splitext (name dep)).2 = ".pc")
  then [name dep]
  else search_for_pcfile self options (name dep).

Definition search_for_package (self : PkgSearcher) (options : Options)
    (dep : Dependency Version) (globals : gmap string string)
    : result Package :=
  let pcfiles := candidate_pcfiles self options dep in
  if is_nil pcfiles then Raise (PackageNotFoundError (dep_str dep))
  else
    pkgs <- load_packages pcfiles globals [];;
    if is_nil pkgs && negb (is_nil pcfiles) then
      Raise (NoOpenableFilesError (dep_str dep))
    else
      let pkgs :=
        List.filter
          (fun pkg => meets_requirement dep (properties_version pkg)) pkgs in
      match pkgs with
      | [] => Raise (PackageNotFoundError (dep_str dep))
      | pkg :: _ => Ok pkg
      end.

(** The candidates that parse, in the order of the candidates. *)
Definition parsed_packages (pcfiles : list string)
    (globals : gmap string string) : list Package :=
  omap (fun pcfile =>
          match Package_new pcfile globals with
          | Ok pkg => Some pkg
          | Raise _ => None
          end) pcfiles.

(** A candidate parses or cannot be opened. *)
Definition parses_or_unreadable (globals : gmap string string)
    (pcfile : string) : Prop :=
  (exists pkg, Package_new pcfile globals = Ok pkg)
  \/ (exists strerror, Package_new pcfile globals = Raise (IOError strerror)).

End Search.

(* ===================================================================== *)
(** ** Instances of the interfaces, to run the functions on inputs *)

(** Modelled from the spec: the texts of [pykg_config.operators], which is
    not among the sources.  The specification lists the operator texts
    [!= = < > <= >=] and lets an absent operator text mean ALWAYS_MATCH; it
    does not say what any other text gives, here an exception. *)
Definition spec_operator_to_text (op : Operator) : string :=
  match op with
  | ALWAYS_MATCH => ""
  | LESS_THAN => "<"
  | LESS_THAN_EQUAL => "<="
  | EQUAL => "="
  | NOT_EQUAL => "!="
  | GREATER_THAN_EQUAL => ">="
  | GREATER_THAN => ">"
  end.

Definition spec_text_to_operator (text : string) : result Operator :=
  if bool_decide (text = "") then Ok ALWAYS_MATCH
  else if bool_decide (text = "<") then Ok LESS_THAN
  else if bool_decide (text = "<=") then Ok LESS_THAN_EQUAL
  else if bool_decide (text = "=") then Ok EQUAL
  else if bool_decide (text = "!=") then Ok NOT_EQUAL
  else if bool_decide (text = ">=") then Ok GREATER_THAN_EQUAL
  else if bool_decide (text = ">") then Ok GREATER_THAN
  else Raise (OtherError text).

Definition spec_operators : OperatorText :=
  {| operator_to_text := spec_operator_to_text;
     text_to_operator := spec_text_to_operator |}.

(** Modelled from the spec: [pykg_config.version] is not among the
    sources.  A version that keeps the text it was built from: empty when
    the text is empty, rendered as that text.  The specification orders
    versions component by component; this instance orders the texts, which
    is the same order on the versions of one-digit components used below.
    The theorems hold for every implementation of [VersionOps], this one
    serves to evaluate them. *)
Definition text_versions : VersionOps string :=
  {| Version_of := fun text => text;
     Version_empty := "";
     version_is_empty := is_empty_str;
     version_str := fun v => v;
     version_lt := String.ltb;
     version_le := String.leb;
     version_eq := String.eqb;
     version_ne := fun a b => negb (String.eqb a b);
     version_ge := fun a b => String.leb b a;
     version_gt := fun a b => String.ltb b a |}.

(** A package reduced to what the search reads: the file it came from and
    its version. *)
Record SamplePackage : Type := mk_package {
  pc_file : string;
  pc_version : string
}.

(** A disk given by the outcome of [Package(pcfile, globals)] per path; a
    path that is not on it cannot be opened. *)
Definition disk_packages (disk : gmap string (result SamplePackage))
    : PackageOps SamplePackage string :=
  {| Package_new := fun pcfile _ =>
       match disk !! pcfile with
       | Some outcome => outcome
       | None => Raise (IOError "No such file or directory")
       end;
     properties_version := pc_version |}.

(** No package name is a file of the working directory. *)
Definition no_files : OsPath :=
  {| isfile := fun _ => false; splitext := fun path => (path, "") |}.

(** An index: [foo] with an installed and an uninstalled file, [bar] in
    three directories, [baz] and [qux]. *)
Definition sample_searcher : PkgSearcher :=
  mk_searcher
    {[ "foo" := ["/usr/lib/pkgconfig/foo.pc"];
       "foo-uninstalled" := ["/src/foo/foo-uninstalled.pc"];
       "bar" := ["/locked/bar.pc"; "/usr/lib/pkgconfig/bar.pc";
                 "/usr/local/lib/pkgconfig/bar.pc"];
       "baz" := ["/locked/baz.pc"];
       "qux" := ["/usr/lib/pkgconfig/qux.pc"; "/opt/lib/pkgconfig/qux.pc"] ]}.

(** The files behind it: those under [/locked] cannot be opened, and
    [/opt/lib/pkgconfig/qux.pc] refers to a variable it does not define. *)
Definition sample_disk : gmap string (result SamplePackage) :=
  {[ "/usr/lib/pkgconfig/bar.pc" :=
       Ok (mk_package "/usr/lib/pkgconfig/bar.pc" "1.0");
     "/usr/local/lib/pkgconfig/bar.pc" :=
       Ok (mk_package "/usr/local/lib/pkgconfig/bar.pc" "2.0");
     "/usr/lib/pkgconfig/qux.pc" :=
       Ok (mk_package "/usr/lib/pkgconfig/qux.pc" "2.0");
     "/opt/lib/pkgconfig/qux.pc" := Raise (UndefinedVarError "prefix" None) ]}.

(** The search on that index and disk. *)
Definition sample_search (options : Options) (dep : Dependency string)
    : result SamplePackage :=
  @search_for_package string SamplePackage text_versions spec_operators
    no_files (disk_packages sample_disk) sample_searcher options dep ∅.

(** A table of known properties, each with the empty string as its
    default, and a substitution without references, to run the parser. *)
Definition sample_props : gmap string (option string) :=
  {[ "name" := Some ""; "version" := Some ""; "description" := Some "" ]}.

Definition no_substitution (text : string) (vars globals : gmap string string)
    : result string := Ok text.

(* ===================================================================== *)
(** ** pcfile.py: read_pc_file *)

(** [open(filename).readlines()]: the lines of a file with their line
    terminators, or the [IOError] of a file that cannot be opened. *)
Class FileSystem : Type := {
  readlines : string -> result (list string)
}.

Section ReadFile.

Variable empty_raw_props : gmap string (option string).
Variable substitute :
  string -> gmap string string -> gmap string string -> result string.
Context `{FileSystem}.

Definition read_pc_file (filename : string)
    (global_variables : gmap string string)
    : result (gmap string string * gmap string string
              * gmap string (option string)) :=
  lines <- readlines filename;;
  if is_nil lines then Raise (EmptyPackageFileError filename)
  else parse_pc_file_lines empty_raw_props substitute lines global_variables.

End ReadFile.

(** A logical line declares the property stored under [k]: it is a
    property line whose key is [k] up to case. *)
Definition declares (k : string) (line : string) : Prop :=
  exists key value,
    split_pc_file_line (strip (strip_comments line))
    = (Some key, Some value, Some PROPERTY)
    /\ lower key = k.

(** The lines [merge_lines] keeps when no line is continued: stripped on
    the right, the blank ones left out. *)
Definition stripped_lines (lines : list string) : list string :=
  List.filter (fun l => negb (is_empty_str l)) (map rstrip lines).

(** [s] starts with white space. *)
Definition starts_with_space (s : string) : bool :=
  match s with
  | String c _ => is_space c
  | "" => false
  end.

(** What a successful [parse_line] keeps, for the table [known] of known
    properties: the keys of [raw_vars] and [vars] agree, and every key in
    [seen_props] is known and is there once. *)
Record state_ok (known : gmap string (option string)) (st : parse_state)
    : Prop := mk_state_ok {
  ok_keys : dom (raw_vars st) = dom (vars st);
  ok_seen_known :
    Forall (fun key => is_Some (known !! lower key)) (seen_props st);
  ok_seen_once : NoDup (seen_props st)
}.

(** A file system given by the lines of its files; a path that is not on
    it cannot be opened. *)
Definition files_of (files : gmap string (list string)) : FileSystem :=
  {| readlines := fun filename =>
       match files !! filename with
       | Some lines => Ok lines
       | None => Raise (IOError "No such file or directory")
       end |}.

Definition sample_files : gmap string (list string) :=
  {[ "/usr/lib/pkgconfig/empty.pc" := [];
     "/usr/lib/pkgconfig/comments.pc" :=
       ["# a package" +:+ newline; newline; "   # nothing else" +:+ newline] ]}.

(* ===================================================================== *)
(** ** dependency.py: __ne__ *)

Section DependencyInequality.

Context {Version : Type} `{VersionOps Version}.

(** [Dependency.__ne__] *)
Definition dep_ne (self other : Dependency Version) : bool :=
  negb (bool_decide (name self = name other))
  || negb (bool_decide (operator self = operator other))
  || version_ne (version self) (version other).

End DependencyInequality.

(** The groups of a match that [parse_package_spec_list] reads: the name,
    the operator and the version ([package[0]], [package[2]] and
    [package[3]]). *)
Definition groups_read (package : string * string * string * string)
    : string * string * string :=
  let '(p0, _, p2, p3) := package in (p0, p2, p3).

(** The result of parsing two texts one after the other. *)
Definition parse_both {A} (first second : result (list A))
    : result (list A) :=
  d1 <- first;; d2 <- second;; Ok (d1 ++ d2)%list.

(** [s] is empty or starts with a character outside the class [p]. *)
Definition stops (p : ascii -> bool) (s : string) : bool :=
  match s with
  | String c _ => negb (p c)
  | "" => true
  end.

(** What the groups of one match look like: a name of name characters,
    and an operator and a version that are both empty or both set, of
    operator and of version characters. *)
Definition groups_ok (package : string * string * string * string) : Prop :=
  let '(p0, _, p2, p3) := package in
  p0 <> "" /\ all_chars is_name_char p0 = true
  /\ ((p2 = "" /\ p3 = "")
      \/ (p2 <> "" /\ all_chars is_op_char p2 = true
          /\ p3 <> "" /\ all_chars is_version_char p3 = true)).

(* ===================================================================== *)
(** ** pkgsearcher.py: _append_packages *)

(** [s[n:]] for [n >= 0]. *)
Fixpoint slice_from (n : nat) (s : string) : string :=
  match n, s with
  | 0, _ => s
  | S n', String _ s' => slice_from n' s'
  | S _, "" => ""
  end.

(** [s.endswith(suffix)] *)
Definition endswith (s suffix : string) : bool :=
  (String.length suffix <=? String.length s)%nat
  && bool_decide
       (slice_from (String.length s - String.length suffix) s = suffix).

(** [os.listdir] and [os.path.join]: the names in a directory, in the
    order the directory lists them, and the path of a name in it. *)
Class OsDir : Type := {
  listdir : string -> list string;
  join : string -> string -> string
}.

Section AppendPackages.

Context `{OsDir}.

(** The body of the loop of [_append_packages] for one file name. *)
Definition append_package (d filename : string)
    (known : gmap string (list string)) : gmap string (list string) :=
  if endswith filename ".pc" then
    let full_path := join d filename in
    let name := slice_drop_last 3 filename in
    match known !! name with
    | Some paths =>
        if bool_decide (full_path ∈ paths) then known
        else <[name := (paths ++ [full_path])%list]> known
    | None => <[name := [full_path]]> known
    end
  else known.

Fixpoint append_files (d : string) (files : list string)
    (known : gmap string (list string)) : gmap string (list string) :=
  match files with
  | [] => known
  | filename :: rest => append_files d rest (append_package d filename known)
  end.

Definition _append_packages (self : PkgSearcher) (d : string) : PkgSearcher :=
  mk_searcher (append_files d (listdir d) (_known_pkgs self)).

End AppendPackages.

(** The paths of a name once [full_path] has been offered to it: added at
    the end unless it is there. *)
Definition with_path (full_path : string) (old : option (list string))
    : list string :=
  match old with
  | Some paths =>
      if bool_decide (full_path ∈ paths) then paths
      else (paths ++ [full_path])%list
  | None => [full_path]
  end.

(** Directories given by the names they list, with paths joined by a
    slash. *)
Definition dirs_of (dirs : gmap string (list string)) : OsDir :=
  {| listdir := fun d => default [] (dirs !! d);
     join := fun d filename => d +:+ "/" +:+ filename |}.

Definition sample_dirs : gmap string (list string) :=
  {[ "/usr/lib/pkgconfig" := ["foo.pc"; "README"; "bar.pc"];
     "/usr/local/lib/pkgconfig" := ["foo.pc"; "baz.pc"; "foo.pc.bak"] ]}.

(** A working directory in which [/src/foo/foo.pc] is a file. *)
Definition explicit_file : OsPath :=
  {| isfile := fun path => bool_decide (path = "/src/foo/foo.pc");
     splitext := fun path =>
       (slice_drop_last 3 path,
        slice_from (String.length path - 3) path) |}.

(* ===================================================================== *)
(** ** pkgsearcher.py: _init_search_dirs *)

(** The entries of [self.globals] that [_init_search_dirs] reads: the
    lists under [config_path] and [config_libdir] and the text under
    [prefix], [None] for a key that is not in the dictionary. *)
Record SearchGlobals : Type := mk_globals {
  config_path : option (list string);
  config_libdir : option (list string);
  globals_prefix : option string
}.

(** The options [_init_search_dirs] reads from [Options()]. *)
Record SearchOptions : Type := mk_search_options {
  is_64bit : bool;
  search_paths : list string
}.

(** The platform: [os.path.isdir]; whether [sys.platform] is [win32]; the
    values the two registry keys give in the order they are read, each
    with whether its type is [REG_SZ] (none where a key does not open);
    [sys.prefix]; and [pc_path] of [install_config], [None] without that
    module. *)
Class Platform : Type := {
  isdir : string -> bool;
  win32 : bool;
  registry_values : list (string * bool);
  sys_prefix : string;
  pc_path : option string
}.

(** [s.split(sep)] for a separator of one character. *)
Fixpoint split_from (sep : ascii) (current s : string) : list string :=
  match s with
  | "" => [current]
  | String c s' =>
      if eqb_char c sep then current :: split_from sep "" s'
      else split_from sep (current +:+ String c "") s'
  end.

Definition split_on (sep : ascii) (s : string) : list string :=
  split_from sep "" s.

Section InitSearchDirs.

Context `{OsDir} `{Platform}.

Definition _split_char : ascii := if win32 then ";"%char else ":"%char.

(** A loop [for d in dirs: if wanted(d): self._append_packages(d)]. *)
Fixpoint scan (wanted : string -> bool) (dirs : list string)
    (self : PkgSearcher) : PkgSearcher :=
  match dirs with
  | [] => self
  | d :: rest =>
      scan wanted rest (if wanted d then _append_packages self d else self)
  end.

(** [d and isdir(d)], the negation of [not d or not isdir(d)]. *)
Definition named_dir (d : string) : bool := negb (is_empty_str d) && isdir d.

(** A list of the globals, scanned when its key is there and the list is
    not empty. *)
Definition scan_global (dirs : option (list string)) (self : PkgSearcher)
    : PkgSearcher :=
  match dirs with
  | Some (d :: rest) => scan named_dir (d :: rest) self
  | _ => self
  end.

(** The registry values that are directories, on [win32]. *)
Fixpoint scan_registry (values : list (string * bool)) (self : PkgSearcher)
    : PkgSearcher :=
  match values with
  | [] => self
  | (val, reg_sz) :: rest =>
      scan_registry rest
        (if reg_sz && isdir val then _append_packages self val else self)
  end.

(** The three default directories under a prefix. *)
Definition dirs2check (prefix : string) (options : SearchOptions)
    : list string :=
  let suffix := if is_64bit options then "64" else "" in
  [join prefix ("lib" +:+ suffix); join prefix "share"; join prefix "lib"].

Definition _init_search_dirs (self : PkgSearcher) (globals : SearchGlobals)
    (options : SearchOptions) : PkgSearcher :=
  let self := scan_global (config_path globals) self in
  let self := scan_global (config_libdir globals) self in
  let self := if win32 then scan_registry registry_values self else self in
  let prefix :=
    match globals_prefix globals with
    | Some prefix => prefix
    | None => sys_prefix
    end in
  let self :=
    match pc_path with
    | Some (String c path) =>
        scan named_dir (split_on _split_char (String c path)) self
    | _ =>
        scan isdir
          (map (fun d => join d "pkgconfig") (dirs2check prefix options)) self
    end in
  scan isdir (search_paths options) self.

End InitSearchDirs.

(** The files of the directory [d] are in the index. *)
Definition scanned `{OsDir} (d : string) (self : PkgSearcher) : Prop :=
  forall name,
    name +:+ ".pc" ∈ listdir d ->
    exists paths,
      _known_pkgs self !! name = Some paths
      /\ join d (name +:+ ".pc") ∈ paths.

(** An index that has all the paths of another, at the front and in
    their order. *)
Definition extends (later earlier : PkgSearcher) : Prop :=
  forall name paths,
    _known_pkgs earlier !! name = Some paths ->
    exists more, _known_pkgs later !! name = Some (paths ++ more)%list.

(** A platform given by its directories, without registry and without
    configured [pc_path]. *)
Definition posix_with (dirs : gmap string (list string)) : Platform :=
  {| isdir := fun d => bool_decide (is_Some (dirs !! d));
     win32 := false;
     registry_values := [];
     sys_prefix := "/usr";
     pc_path := None |}.


(* ===================================================================== *)
(** * Properties *)

(** ** Strings *)

Lemma app_cons (c : ascii) (s t : string) :
  String c s +:+ t = String c (s +:+ t).
Proof. reflexivity. Qed.

Lemma app_empty_l (t : string) : "" +:+ t = t.
Proof. reflexivity. Qed.

Lemma app_empty_r (s : string) : s +:+ "" = s.
Proof. induction s as [|c s IH]; [reflexivity|]. by rewrite app_cons, IH. Qed.

Lemma app_assoc_str (s t u : string) : (s +:+ t) +:+ u = s +:+ t +:+ u.
Proof.
  induction s as [|c s IH]; [reflexivity|]. by rewrite !app_cons, IH.
Qed.

Lemma app_length_str (s t : string) :
  String.length (s +:+ t) = String.length s + String.length t.
Proof.
  induction s as [|c s IH]; [reflexivity|]. rewrite app_cons. simpl. by rewrite IH.
Qed.

Lemma last_char_snoc (s : string) (c : ascii) :
  last_char (s +:+ String c "") = Some c.
Proof.
  induction s as [|a s IH]; [reflexivity|].
  rewrite app_cons. simpl. rewrite IH.
  destruct s; reflexivity.
Qed.

Lemma last_char_app_cons (s t : string) (c : ascii) :
  last_char (s +:+ String c t) = last_char (String c t).
Proof.
  induction s as [|a s IH]; [reflexivity|].
  rewrite app_cons.
  change (last_char (String a (s +:+ String c t)))
    with (match s +:+ String c t with
          | "" => Some a
          | _ => last_char (s +:+ String c t)
          end).
  rewrite IH. destruct s; reflexivity.
Qed.

(** [rstrip] keeps a string up to its last character outside white space:
    a line feed behind such a character goes, the character stays. *)
Lemma rstrip_snoc_newline (s : string) (c : ascii) :
  is_space c = false ->
  rstrip (s +:+ String c newline) = s +:+ String c "".
Proof.
  intros Hc. induction s as [|a s IH].
  - rewrite !app_empty_l. simpl. by rewrite Hc.
  - rewrite !app_cons. simpl. rewrite IH.
    destruct s; reflexivity.
Qed.

(** ** merge_lines *)

Lemma ends_with_backslash_snoc (s : string) :
  ends_with backslash (s +:+ backslash) = Ok true.
Proof. unfold ends_with, backslash. by rewrite last_char_snoc. Qed.

Lemma merge_loop_head (cont_char l : string) (rest : list string) :
  merge_loop cont_char None (l :: rest)
  = if is_empty_str (rstrip l) then merge_loop cont_char None rest
    else
      c <- ends_with cont_char (rstrip l);;
      if c then
        merge_loop cont_char
          (Some (slice_drop_last 2 (rstrip l) +:+ " ")) rest
      else
        result <- merge_loop cont_char None rest;;
        Ok (rstrip l :: result).
Proof. reflexivity. Qed.

Lemma merge_loop_continued (cont_char p l : string) (rest : list string) :
  merge_loop cont_char (Some p) (l :: rest)
  = (c <- ends_with cont_char (p +:+ rstrip l);;
     if c then
       merge_loop cont_char
         (Some (slice_drop_last 2 (p +:+ rstrip l) +:+ " ")) rest
     else
       result <- merge_loop cont_char None rest;;
       Ok ((p +:+ rstrip l) :: result)).
Proof. reflexivity. Qed.

(** Once the last line of the list ends with the backslash and a line
    feed, the loops run off the end of the list, whatever was merged
    before. *)
Lemma merge_loop_runs_off (body : string) (lines : list string) :
  last lines = Some (body +:+ backslash +:+ newline) ->
  forall pending, merge_loop backslash pending lines = Raise IndexError.
Proof.
  induction lines as [|l rest IH]; [done|].
  intros Hlast pending.
  destruct rest as [|l' rest'].
  - simpl in Hlast. injection Hlast as ->.
    assert (Hr : rstrip (body +:+ backslash +:+ newline) = body +:+ backslash).
    { unfold backslash. by apply rstrip_snoc_newline. }
    destruct pending as [p|]; simpl; rewrite Hr.
    + rewrite <- app_assoc_str, ends_with_backslash_snoc. reflexivity.
    + rewrite ends_with_backslash_snoc.
      destruct body; reflexivity.
  - assert (Hrest : forall q, merge_loop backslash q (l' :: rest') = Raise IndexError).
    { apply IH. by rewrite last_cons_cons in Hlast. }
    destruct pending as [p|].
    + rewrite merge_loop_continued.
      destruct (ends_with backslash (p +:+ rstrip l)) as [[|]|e] eqn:He;
        unfold bind.
      * apply Hrest.
      * by rewrite Hrest.
      * unfold ends_with in He. destruct (last_char _); by inversion He.
    + rewrite merge_loop_head.
      destruct (is_empty_str (rstrip l)); [apply Hrest|].
      destruct (ends_with backslash (rstrip l)) as [[|]|e] eqn:He;
        unfold bind.
      * apply Hrest.
      * by rewrite Hrest.
      * unfold ends_with in He. destruct (last_char _); by inversion He.
Qed.

(** C5.  [merge_lines] on the two lines [a\] and [b]: the code takes two
    characters off the stripped first line, the backslash and the [a]
    before it, and returns the one line [ b], not [a b].  The same with
    line feeds at the end of both lines. *)
Theorem C5_merge_lines_drops_the_character_before_the_marker :
  merge_lines ["a\"; "b"] backslash = Ok [" b"]
  /\ merge_lines ["a\" +:+ newline; "b" +:+ newline] backslash = Ok [" b"]
  /\ merge_lines ["a\"; "b"] backslash <> Ok ["a b"].
Proof. repeat split; try reflexivity. discriminate. Qed.

(** C6.  When the last line ends with the backslash and then a line feed,
    the test [lines[-1][-1] == cont_char] sees the line feed: [merge_lines]
    raises no [TrailingContinuationCharError], it runs off the list with an
    [IndexError]. *)
Theorem C6_trailing_marker_before_line_feed_raises_IndexError
    (lines : list string) (body : string) :
  last lines = Some (body +:+ backslash +:+ newline) ->
  merge_lines lines backslash = Raise IndexError.
Proof.
  intros Hlast. unfold merge_lines, last_line. rewrite Hlast. simpl.
  unfold ends_with.
  replace (body +:+ backslash +:+ newline)
    with ((body +:+ backslash) +:+ newline) by apply app_assoc_str.
  unfold newline at 1. rewrite last_char_snoc. simpl.
  by apply merge_loop_runs_off with (body := body).
Qed.

Lemma C6_witness :
  last ["Name: x" +:+ newline; "Libs: -lx \" +:+ newline]
    = Some ("Libs: -lx " +:+ backslash +:+ newline)
  /\ merge_lines ["Name: x" +:+ newline; "Libs: -lx \" +:+ newline] backslash
     = Raise IndexError.
Proof.
  split; [reflexivity|].
  apply (C6_trailing_marker_before_line_feed_raises_IndexError
           ["Name: x" +:+ newline; "Libs: -lx \" +:+ newline] "Libs: -lx ").
  reflexivity.
Defined.

(** Without a line feed behind it the marker is seen. *)
Lemma merge_lines_trailing_marker (lines : list string) (body : string) :
  last lines = Some (body +:+ backslash) ->
  merge_lines lines backslash
  = Raise (TrailingContinuationCharError (body +:+ backslash)).
Proof.
  intros Hlast. unfold merge_lines, last_line. rewrite Hlast. simpl.
  by rewrite ends_with_backslash_snoc.
Qed.

(** ** The line grammars *)

Lemma span_app (p : ascii -> bool) (s : string) :
  (span p s).1 +:+ (span p s).2 = s.
Proof.
  induction s as [|c s IH]; [reflexivity|]. simpl.
  destruct (p c); [|reflexivity].
  destruct (span p s) as [a b]. simpl in *. by rewrite app_cons, IH.
Qed.

Lemma span_prefix (p : ascii -> bool) (s : string) (c : ascii) (t : string) :
  all_chars p s = true -> p c = false ->
  span p (s +:+ String c t) = (s, String c t).
Proof.
  intros Hs Hc. induction s as [|a s IH].
  - rewrite app_empty_l. simpl. by rewrite Hc.
  - rewrite app_cons. simpl in *. apply andb_true_iff in Hs as [-> Hs].
    by rewrite IH.
Qed.

Lemma span_all (p : ascii -> bool) (s : string) :
  all_chars p s = true -> span p s = (s, "").
Proof.
  intros Hs. induction s as [|a s IH]; [reflexivity|].
  simpl in *. apply andb_true_iff in Hs as [-> Hs]. by rewrite IH.
Qed.


(** ** parse_line *)

Section ParserProperties.

Variable empty_raw_props : gmap string (option string).
Variable substitute :
  string -> gmap string string -> gmap string string -> result string.


Lemma parse_line_property (line key value : string) (st : parse_state)
    (globals : gmap string string) :
  line <> "" ->
  split_pc_file_line line = (Some key, Some value, Some PROPERTY) ->
  parse_line empty_raw_props substitute line st globals
  = if bool_decide (key ∈ seen_props st) then
      Raise (MultiplyDefinedValueError key)
    else
      match empty_raw_props !! lower key with
      | Some _ =>
          Ok (mk_state (raw_vars st) (vars st)
                       (<[lower key := Some value]> (props st))
                       (seen_props st ++ [key]))
      | None => Ok st
      end.
Proof.
  intros Hne Hsplit. unfold parse_line. rewrite Hsplit.
  destruct line; [done|]. simpl.
  case_bool_decide; [done|]. by destruct (empty_raw_props !! lower key).
Qed.

Lemma parse_line_variable (line key value : string) (st : parse_state)
    (globals : gmap string string) :
  line <> "" ->
  split_pc_file_line line = (Some key, Some value, Some VARIABLE) ->
  parse_line empty_raw_props substitute line st globals
  = if bool_decide (is_Some (vars st !! key)) then
      Raise (MultiplyDefinedValueError key)
    else
      v <- substitute (default (strip value) (globals !! key))
                      (vars st) globals;;
      Ok (mk_state (<[key := strip value]> (raw_vars st))
                   (<[key := v]> (vars st)) (props st) (seen_props st)).
Proof.
  intros Hne Hsplit. unfold parse_line. rewrite Hsplit.
  destruct line; [done|]. simpl.
  case_bool_decide; [done|]. by destruct (globals !! key).
Qed.

Lemma parse_line_malformed (line : string) (st : parse_state)
    (globals : gmap string string) :
  property_re line = None -> variable_re line = None ->
  parse_line empty_raw_props substitute line st globals = Ok st.
Proof.
  intros Hp Hv. unfold parse_line, split_pc_file_line.
  rewrite Hp, Hv. by destruct line.
Qed.

(** What [split_pc_file_line] returns: the three are set together. *)
Lemma split_pc_file_line_cases (line : string) :
  (exists key value type,
      split_pc_file_line line = (Some key, Some value, Some type))
  \/ split_pc_file_line line = (None, None, None).
Proof.
  unfold split_pc_file_line.
  destruct (property_re line) as [[key value]|]; [left; eauto|].
  destruct (variable_re line) as [[key value]|]; [left; eauto|].
  by right.
Qed.

(** A line changes no key of the properties. *)
Lemma parse_line_dom_props (line : string) (st st' : parse_state)
    (globals : gmap string string) :
  dom (props st) = dom empty_raw_props ->
  parse_line empty_raw_props substitute line st globals = Ok st' ->
  dom (props st') = dom empty_raw_props.
Proof.
  intros Hdom Hparse.
  destruct line as [|c line]; [injection Hparse as <-; exact Hdom|].
  destruct (split_pc_file_line_cases (String c line))
    as [(key & value & [|] & Hsplit)|Hsplit].
  - rewrite (parse_line_variable _ key value) in Hparse by done.
    case_bool_decide; [done|].
    destruct (substitute _ _ _) as [v|]; simpl in Hparse; [|done].
    injection Hparse as <-. exact Hdom.
  - rewrite (parse_line_property _ key value) in Hparse by done.
    case_bool_decide; [done|].
    destruct (empty_raw_props !! lower key) eqn:Hknown.
    + injection Hparse as <-. simpl.
      rewrite dom_insert_lookup_L; [exact Hdom|].
      apply elem_of_dom. rewrite Hdom. apply elem_of_dom. eauto.
    + injection Hparse as <-. exact Hdom.
  - unfold parse_line in Hparse. rewrite Hsplit in Hparse.
    simpl in Hparse. injection Hparse as <-. exact Hdom.
Qed.

Lemma parse_lines_dom_props (merged : list string) (st st' : parse_state)
    (globals : gmap string string) :
  dom (props st) = dom empty_raw_props ->
  parse_lines empty_raw_props substitute merged st globals = Ok st' ->
  dom (props st') = dom empty_raw_props.
Proof.
  revert st. induction merged as [|line rest IH]; intros st Hdom Hparse.
  - by inversion Hparse; subst.
  - simpl in Hparse.
    destruct (parse_line empty_raw_props substitute _ st globals)
      as [st1|] eqn:Hline; [|done].
    simpl in Hparse. eapply IH; [|done].
    by eapply parse_line_dom_props.
Qed.

Lemma parse_lines_cons (line : string) (rest : list string)
    (st : parse_state) (globals : gmap string string) :
  parse_lines empty_raw_props substitute (line :: rest) st globals
  = (st' <- parse_line empty_raw_props substitute
              (strip (strip_comments line)) st globals;;
     parse_lines empty_raw_props substitute rest st' globals).
Proof. reflexivity. Qed.

Lemma parse_lines_app (l1 l2 : list string) (st : parse_state)
    (globals : gmap string string) :
  parse_lines empty_raw_props substitute (l1 ++ l2) st globals
  = (st' <- parse_lines empty_raw_props substitute l1 st globals;;
     parse_lines empty_raw_props substitute l2 st' globals).
Proof.
  revert st. induction l1 as [|line rest IH]; intros st; [reflexivity|].
  simpl.
  destruct (parse_line empty_raw_props substitute _ st globals); simpl;
    [apply IH|done].
Qed.

End ParserProperties.

(** ** Duplicate definitions *)

(** A variable assigned before is refused. *)
Lemma parse_line_duplicate_variable
    (empty_raw_props : gmap string (option string))
    (substitute :
       string -> gmap string string -> gmap string string -> result string)
    (line key value : string) (st : parse_state)
    (globals : gmap string string) :
  line <> "" ->
  split_pc_file_line line = (Some key, Some value, Some VARIABLE) ->
  is_Some (vars st !! key) ->
  parse_line empty_raw_props substitute line st globals
  = Raise (MultiplyDefinedValueError key).
Proof.
  intros Hne Hsplit Hseen.
  rewrite (parse_line_variable _ _ _ key value) by done.
  by rewrite bool_decide_eq_true_2.
Qed.

(** A property declared before under the same spelling is refused. *)
Lemma parse_line_duplicate_property
    (empty_raw_props : gmap string (option string))
    (substitute :
       string -> gmap string string -> gmap string string -> result string)
    (line key value : string) (st : parse_state)
    (globals : gmap string string) :
  line <> "" ->
  split_pc_file_line line = (Some key, Some value, Some PROPERTY) ->
  key ∈ seen_props st ->
  parse_line empty_raw_props substitute line st globals
  = Raise (MultiplyDefinedValueError key).
Proof.
  intros Hne Hsplit Hseen.
  rewrite (parse_line_property _ _ _ key value) by done.
  by rewrite bool_decide_eq_true_2.
Qed.

(** C4.  [seen_props] keeps the key as it is written while the property is
    stored under the lower-case key: a second declaration of a known
    property in another spelling is not refused, it replaces the value.
    Two lines [Version: 1.0] and [version: 2.0] parse to the version
    [2.0]. *)
Theorem C4_second_declaration_in_other_case_is_accepted
    (empty_raw_props : gmap string (option string))
    (substitute :
       string -> gmap string string -> gmap string string -> result string)
    (globals : gmap string string) :
  is_Some (empty_raw_props !! "version") ->
  parse_pc_file_lines empty_raw_props substitute
    ["Version: 1.0"; "version: 2.0"] globals
  = Ok (∅, ∅, <["version" := Some "2.0"]> empty_raw_props).
Proof.
  intros [d Hknown].
  assert (Hlines :
    parse_lines empty_raw_props substitute ["Version: 1.0"; "version: 2.0"]
      (initial_state empty_raw_props) globals
    = Ok (mk_state ∅ ∅ (<["version" := Some "2.0"]> empty_raw_props)
                   ["Version"; "version"])).
  { rewrite parse_lines_cons.
    change (strip (strip_comments "Version: 1.0")) with "Version: 1.0".
    rewrite (parse_line_property _ _ "Version: 1.0" "Version" "1.0")
      by (done || reflexivity).
    rewrite bool_decide_eq_false_2 by (by intros ?%elem_of_nil).
    change (lower "Version") with "version". rewrite Hknown.
    unfold bind at 1. rewrite parse_lines_cons.
    change (strip (strip_comments "version: 2.0")) with "version: 2.0".
    rewrite (parse_line_property _ _ "version: 2.0" "version" "2.0")
      by (done || reflexivity).
    rewrite bool_decide_eq_false_2
      by (intros Hin; apply list_elem_of_singleton in Hin; discriminate).
    change (lower "version") with "version". rewrite Hknown.
    simpl. by rewrite insert_insert_eq. }
  unfold parse_pc_file_lines.
  change (merge_lines ["Version: 1.0"; "version: 2.0"] backslash)
    with (Ok ["Version: 1.0"; "version: 2.0"]).
  unfold bind at 1. by rewrite Hlines.
Qed.

Lemma C4_witness :
  is_Some (sample_props !! "version")
  /\ parse_pc_file_lines sample_props no_substitution
       ["Version: 1.0"; "version: 2.0"] ∅
     = Ok (∅, ∅, <["version" := Some "2.0"]> sample_props).
Proof.
  split; [by eexists|].
  apply (C4_second_declaration_in_other_case_is_accepted
           sample_props no_substitution ∅).
  by eexists.
Defined.

(** ** Bare declarations *)




(** ** Malformed lines *)

(** C8.  A line that matches neither the property nor the variable grammar
    does not make parsing fail and changes nothing: [parse_line] returns
    the state it was given, and a file with such a logical line parses to
    what it parses to without the line. *)
Theorem C8_malformed_line_is_skipped
    (empty_raw_props : gmap string (option string))
    (substitute :
       string -> gmap string string -> gmap string string -> result string)
    (line : string) (globals : gmap string string) :
  strip (strip_comments line) <> "" ->
  property_re (strip (strip_comments line)) = None ->
  variable_re (strip (strip_comments line)) = None ->
  (forall st,
      parse_line empty_raw_props substitute
        (strip (strip_comments line)) st globals = Ok st)
  /\ (forall before after st,
         parse_lines empty_raw_props substitute
           (before ++ line :: after) st globals
         = parse_lines empty_raw_props substitute
             (before ++ after) st globals)
  /\ (forall lines lines' before after,
         merge_lines lines backslash = Ok (before ++ line :: after)%list ->
         merge_lines lines' backslash = Ok (before ++ after)%list ->
         parse_pc_file_lines empty_raw_props substitute lines globals
         = parse_pc_file_lines empty_raw_props substitute lines' globals).
Proof.
  intros _ Hp Hv.
  assert (Hskip : forall st,
             parse_line empty_raw_props substitute
               (strip (strip_comments line)) st globals = Ok st)
    by (intros st; by apply parse_line_malformed).
  assert (Hlines : forall before after st,
             parse_lines empty_raw_props substitute
               (before ++ line :: after) st globals
             = parse_lines empty_raw_props substitute
                 (before ++ after) st globals).
  { intros before after st. rewrite !parse_lines_app.
    destruct (parse_lines _ _ before st globals) as [st1|]; [|reflexivity].
    unfold bind. simpl. by rewrite Hskip. }
  split; [exact Hskip|]. split; [exact Hlines|].
  intros lines lines' before after Hmerged Hmerged'.
  unfold parse_pc_file_lines. rewrite Hmerged, Hmerged'.
  unfold bind at 1 3. by rewrite Hlines.
Qed.

Lemma C8_witness :
  (forall st,
      parse_line sample_props no_substitution
        (strip (strip_comments "  not a definition  # at all")) st ∅ = Ok st)
  /\ (forall before after st,
         parse_lines sample_props no_substitution
           (before ++ "  not a definition  # at all" :: after) st ∅
         = parse_lines sample_props no_substitution (before ++ after) st ∅)
  /\ (forall lines lines' before after,
         merge_lines lines backslash
         = Ok (before ++ "  not a definition  # at all" :: after)%list ->
         merge_lines lines' backslash = Ok (before ++ after)%list ->
         parse_pc_file_lines sample_props no_substitution lines ∅
         = parse_pc_file_lines sample_props no_substitution lines' ∅).
Proof.
  apply (C8_malformed_line_is_skipped sample_props no_substitution
           "  not a definition  # at all" ∅).
  - discriminate.
  - reflexivity.
  - reflexivity.
Defined.

(** ** The keys of the properties *)

(** C10.  When [parse_pc_file_lines] succeeds, the keys of the properties
    it returns are the keys of [empty_raw_props], no more and no fewer;
    they are all lower-case when those of the table are. *)
Theorem C10_property_keys_are_the_known_keys
    (empty_raw_props : gmap string (option string))
    (substitute :
       string -> gmap string string -> gmap string string -> result string)
    (lines : list string) (globals : gmap string string)
    (raw resolved : gmap string string)
    (properties : gmap string (option string)) :
  parse_pc_file_lines empty_raw_props substitute lines globals
  = Ok (raw, resolved, properties) ->
  dom properties = dom empty_raw_props
  /\ ((forall key, key ∈ dom empty_raw_props -> lower key = key) ->
      forall key, key ∈ dom properties -> lower key = key).
Proof.
  intros Hparse.
  assert (Hdom : dom properties = dom empty_raw_props).
  { unfold parse_pc_file_lines in Hparse.
    destruct (merge_lines lines backslash) as [merged|]; [|done].
    unfold bind at 1 in Hparse.
    destruct (parse_lines _ _ merged _ globals) as [st|] eqn:Hlines; [|done].
    injection Hparse as _ _ <-.
    apply (parse_lines_dom_props empty_raw_props substitute merged
             (initial_state empty_raw_props) st globals);
      [reflexivity|exact Hlines]. }
  split; [exact Hdom|]. intros Hlower key. rewrite Hdom. apply Hlower.
Qed.

Lemma C10_witness :
  dom (<["version" := Some "1.0"]> sample_props) = dom sample_props
  /\ ((forall key, key ∈ dom sample_props -> lower key = key) ->
      forall key, key ∈ dom (<["version" := Some "1.0"]> sample_props) ->
                  lower key = key).
Proof.
  apply (C10_property_keys_are_the_known_keys sample_props no_substitution
           ["Version: 1.0"; "Color: red"; "prefix=/usr"] ∅
           {["prefix" := "/usr"]} {["prefix" := "/usr"]}).
  vm_compute. reflexivity.
Defined.

(** ** The package-spec pattern *)

Lemma span_length (p : ascii -> bool) (s : string) :
  String.length s
  = String.length (span p s).1 + String.length (span p s).2.
Proof. by rewrite <- app_length_str, span_app. Qed.

Lemma match_group_shorter (nm rest : string) :
  String.length (match_group nm rest).2 <= String.length rest.
Proof.
  unfold match_group.
  pose proof (span_length is_space rest) as H1.
  destruct (span is_space rest) as [w1 r1]. simpl in H1.
  pose proof (span_length is_op_char r1) as H2.
  destruct (span is_op_char r1) as [o r2]. simpl in H2.
  destruct (is_empty_str o); [done|].
  pose proof (span_length is_space r2) as H3.
  destruct (span is_space r2) as [w2 r3]. simpl in H3.
  pose proof (span_length is_version_char r3) as H4.
  destruct (span is_version_char r3) as [v r4]. simpl in H4.
  destruct (negb (is_empty_str v)); [simpl; lia|].
  destruct (2 <=? String.length o)%nat; simpl; lia.
Qed.

(** A match takes a character at least. *)
Lemma match_spec_shorter (s rest : string)
    (groups : string * string * string * string) :
  match_spec s = Some (groups, rest) ->
  String.length rest < String.length s.
Proof.
  unfold match_spec.
  pose proof (span_length is_name_char s) as Hlen.
  destruct (span is_name_char s) as [nm r0]. simpl in Hlen.
  destruct nm as [|c nm]; [done|]. simpl in Hlen.
  pose proof (match_group_shorter (String c nm) r0) as Hgroup.
  unfold is_empty_str.
  destruct r0 as [|c0 r0'].
  - intros [= _ <-]. simpl in *. lia.
  - destruct (eqb_char c0 ",").
    + intros [= _ <-]. simpl in Hlen. lia.
    + intros [= Heq]. rewrite Heq in Hgroup. simpl in Hgroup, Hlen. lia.
Qed.

(** More fuel than the length of the string changes nothing: [findall]
    never stops for lack of fuel. *)
Lemma findall_fuel_enough (fuel : nat) (s : string) :
  String.length s <= fuel ->
  findall_fuel fuel s = findall s.
Proof.
  unfold findall.
  remember (String.length s) as n eqn:Hn.
  revert fuel s Hn.
  induction (lt_wf n) as [n _ IH]. intros fuel s -> Hfuel.
  destruct s as [|c s'].
  - by destruct fuel.
  - destruct fuel as [|fuel']; [simpl in Hfuel; lia|].
    simpl String.length in *. simpl findall_fuel.
    destruct (match_spec (String c s')) as [[groups rest]|] eqn:Hm.
    + apply match_spec_shorter in Hm. simpl in Hm. f_equal.
      rewrite (IH (String.length rest)) by (done || lia).
      symmetry. apply (IH (String.length rest)); (done || lia).
    + rewrite (IH (String.length s')) by (done || lia).
      symmetry. apply (IH (String.length s')); (done || lia).
Qed.

Lemma findall_single (s : string)
    (groups : string * string * string * string) :
  match_spec s = Some (groups, "") -> findall s = [groups].
Proof.
  intros Hm. unfold findall.
  destruct s as [|c s']; [done|].
  simpl String.length. simpl findall_fuel. rewrite Hm.
  by destruct (String.length s').
Qed.

(** Every name [findall] reports is non-empty. *)
Lemma findall_fuel_names (fuel : nat) (s : string) :
  Forall (fun groups => groups.1.1.1 <> "") (findall_fuel fuel s).
Proof.
  revert s. induction fuel as [|fuel IH]; intros s; [constructor|].
  destruct s as [|c s']; [constructor|].
  simpl findall_fuel.
  destruct (match_spec (String c s')) as [[groups rest]|] eqn:Hm; [|apply IH].
  constructor; [|apply IH].
  unfold match_spec in Hm.
  destruct (span is_name_char (String c s')) as [nm r0].
  destruct nm as [|a nm]; [done|]. simpl in Hm.
  assert (Hg : (match_group (String a nm) r0).1.1.1.1 = String a nm).
  { unfold match_group.
    destruct (span is_space r0) as [w1 r1].
    destruct (span is_op_char r1) as [o r2].
    destruct (is_empty_str o); [done|].
    destruct (span is_space r2) as [w2 r3].
    destruct (span is_version_char r3) as [v r4].
    destruct (negb (is_empty_str v)); [done|].
    by destruct (2 <=? String.length o)%nat. }
  destruct r0 as [|c0 r0'].
  - by injection Hm as <- _.
  - destruct (eqb_char c0 ",").
    + by injection Hm as <- _.
    + injection Hm as Heq. rewrite Heq in Hg. simpl in Hg. by rewrite Hg.
Qed.

(** Stripping a text without white space gives the text. *)
Lemma rstrip_no_space (s : string) :
  all_chars (fun c => negb (is_space c)) s = true -> rstrip s = s.
Proof.
  induction s as [|c s IH]; [done|]. simpl.
  intros [Hc Hs]%andb_true_iff. rewrite (IH Hs).
  destruct s; [|done]. by destruct (is_space c).
Qed.

Lemma strip_no_space (s : string) :
  all_chars (fun c => negb (is_space c)) s = true -> strip s = s.
Proof.
  intros Hs. unfold strip.
  assert (lstrip s = s) as ->; [|by apply rstrip_no_space].
  destruct s as [|c s]; [done|]. simpl in *.
  apply andb_true_iff in Hs as [Hc _]. by destruct (is_space c).
Qed.

Lemma all_chars_app (p : ascii -> bool) (s t : string) :
  all_chars p (s +:+ t) = all_chars p s && all_chars p t.
Proof.
  induction s as [|c s IH]; [done|].
  rewrite app_cons. simpl. by rewrite IH, andb_assoc.
Qed.

Lemma all_chars_impl (p q : ascii -> bool) (s : string) :
  (forall c, p c = true -> q c = true) ->
  all_chars p s = true -> all_chars q s = true.
Proof.
  intros Hpq. induction s as [|c s IH]; [done|]. simpl.
  intros [Hc Hs]%andb_true_iff. by rewrite (Hpq c Hc), IH.
Qed.

Lemma is_op_char_not_space (c : ascii) :
  is_op_char c = true -> is_space c = false.
Proof.
  unfold is_op_char, eqb_char. intros H.
  repeat (apply orb_true_iff in H as [H|H]);
    apply Ascii.eqb_eq in H; by subst.
Qed.

Lemma is_op_char_not_comma (c : ascii) :
  is_op_char c = true -> eqb_char c "," = false.
Proof.
  unfold is_op_char, eqb_char. intros H.
  repeat (apply orb_true_iff in H as [H|H]);
    apply Ascii.eqb_eq in H; by subst.
Qed.

(** ** Rendering a dependency and parsing it back *)

(** A name, an operator text and a version text, each of its own
    characters, are found again as the three groups. *)
Lemma match_spec_rendered (nm op vt : string) :
  nm <> "" -> all_chars is_name_char nm = true ->
  op <> "" -> all_chars is_op_char op = true ->
  vt <> "" -> all_chars is_version_char vt = true ->
  starts_with_op vt = false ->
  match_spec (nm +:+ op +:+ vt) = Some ((nm, op +:+ vt, op, vt), "").
Proof.
  intros Hnm Hname Hop Hops Hvt Hver Hstart.
  destruct op as [|c op']; [done|]. destruct vt as [|v0 vt']; [done|].
  simpl in Hops, Hver, Hstart.
  apply andb_true_iff in Hops as [Hc Hops].
  apply andb_true_iff in Hver as [Hv0 Hver].
  assert (Hv0s : is_space v0 = false).
  { unfold is_version_char in Hv0. apply andb_true_iff in Hv0 as [Hv0 _].
    by apply negb_true_iff in Hv0. }
  unfold match_spec. rewrite app_cons.
  rewrite (span_prefix is_name_char nm c) by
    (done || (unfold is_name_char; by rewrite Hc, andb_false_r)).
  destruct nm as [|a nm']; [done|]. simpl is_empty_str. cbv iota.
  rewrite (is_op_char_not_comma c Hc).
  unfold match_group.
  assert (span is_space (String c (op' +:+ String v0 vt'))
          = ("", String c (op' +:+ String v0 vt'))) as ->.
  { simpl. by rewrite (is_op_char_not_space c Hc). }
  rewrite <- app_cons.
  rewrite (span_prefix is_op_char (String c op') v0 vt') by
    (done || (simpl; by rewrite Hc, Hops)).
  simpl is_empty_str. cbv iota.
  assert (span is_space (String v0 vt') = ("", String v0 vt')) as ->.
  { simpl. by rewrite Hv0s. }
  rewrite (span_all is_version_char (String v0 vt')) by
    (simpl; by rewrite Hv0, Hver).
  reflexivity.
Qed.

Section RoundTrip.

Context {Version : Type} `{VersionOps Version} `{OperatorText}.

(** The name of a parsed dependency is never empty. *)
Lemma dependencies_of_matches_names
    (matches : list (string * string * string * string))
    (deps : list (Dependency Version)) :
  Forall (fun groups => groups.1.1.1 <> "") matches ->
  dependencies_of_matches matches = Ok deps ->
  Forall (fun d => name d <> "") deps.
Proof.
  revert deps. induction matches as [|[[[p0 p1] p2] p3] rest IH];
    intros deps Hnames Hdeps.
  - injection Hdeps as <-. constructor.
  - apply Forall_cons in Hnames as [Hp0 Hrest]. simpl in Hdeps, Hp0.
    destruct (text_to_operator p2) as [op|]; [|done]. simpl in Hdeps.
    destruct (dependencies_of_matches rest) as [ds|]; [|done].
    injection Hdeps as <-. constructor; [done|]. by apply IH.
Qed.

Lemma parse_package_spec_list_names (value : string)
    (deps : list (Dependency Version)) :
  parse_package_spec_list value = Ok deps ->
  Forall (fun d => name d <> "") deps.
Proof.
  apply dependencies_of_matches_names. apply findall_fuel_names.
Qed.

(** C9, amended.  A dependency with a non-empty version, whose name is
    not empty and has no white space, comma or operator character, whose
    operator renders to a text of operator characters that
    [text_to_operator] reads back, and whose version renders to a text
    without white space or comma that starts with no operator character
    and that [Version] reads back: its text parses to the one-element
    list of a dependency equal to it. *)
Theorem C9_round_trip_of_a_well_formed_dependency
    (d : Dependency Version) :
  version_is_empty (version d) = false ->
  name d <> "" -> all_chars is_name_char (name d) = true ->
  operator_to_text (operator d) <> "" ->
  all_chars is_op_char (operator_to_text (operator d)) = true ->
  text_to_operator (operator_to_text (operator d)) = Ok (operator d) ->
  version_str (version d) <> "" ->
  all_chars is_version_char (version_str (version d)) = true ->
  starts_with_op (version_str (version d)) = false ->
  version_eq (Version_of (version_str (version d))) (version d) = true ->
  exists d',
    parse_package_spec_list (dep_str d) = Ok [d']
    /\ dep_eq d' d = true
    /\ name d' = name d /\ operator d' = operator d.
Proof.
  intros Hempty Hnm Hname Hop Hops Hread Hvt Hver Hstart Heq.
  exists (mk_dep (name d) (operator d)
                 (Version_of (version_str (version d)))).
  split; [|split; [|done]].
  - unfold parse_package_spec_list, dep_str. rewrite Hempty.
    rewrite strip_no_space.
    + rewrite (findall_single _ _ (match_spec_rendered _ _ _
                 Hnm Hname Hop Hops Hvt Hver Hstart)).
      simpl. rewrite Hread. simpl.
      by destruct (version_str (version d)).
    + rewrite !all_chars_app.
      rewrite (all_chars_impl is_name_char _ (name d)), 
              (all_chars_impl is_op_char _ (operator_to_text (operator d))),
              (all_chars_impl is_version_char _ (version_str (version d)));
        try done.
      * unfold is_version_char. by intros c [? _]%andb_true_iff.
      * intros c Hc. by rewrite (is_op_char_not_space c Hc).
      * unfold is_name_char, is_version_char.
        by intros c [[? _]%andb_true_iff _]%andb_true_iff.
  - unfold dep_eq. simpl. rewrite Heq.
    by rewrite !bool_decide_eq_true_2.
Qed.

End RoundTrip.

Lemma C9_witness :
  exists d',
    @parse_package_spec_list string text_versions spec_operators
      (@dep_str string text_versions spec_operators
         (mk_dep "gtk+-2.0" GREATER_THAN_EQUAL "2.8.0"))
    = Ok [d']
    /\ @dep_eq string text_versions d'
         (mk_dep "gtk+-2.0" GREATER_THAN_EQUAL "2.8.0") = true
    /\ name d' = "gtk+-2.0" /\ operator d' = GREATER_THAN_EQUAL.
Proof.
  apply (@C9_round_trip_of_a_well_formed_dependency
           string text_versions spec_operators
           (mk_dep "gtk+-2.0" GREATER_THAN_EQUAL "2.8.0"));
    (reflexivity || discriminate).
Defined.

(** C9 as stated fails: a name with a space in it is two names to the
    parser.  The dependency [a b = 1] renders to the text [a b=1], which
    parses to two dependencies, [a] and [b = 1]; and no text parses to a
    dependency with an empty name. *)
Lemma C9_counterexample :
  let d := mk_dep "a b" EQUAL "1" in
  @version_is_empty string text_versions (version d) = false
  /\ @dep_str string text_versions spec_operators d = "a b=1"
  /\ @parse_package_spec_list string text_versions spec_operators
       (@dep_str string text_versions spec_operators d)
     = Ok [mk_dep "a" ALWAYS_MATCH ""; mk_dep "b" EQUAL "1"]
  /\ ~ (exists d',
          @parse_package_spec_list string text_versions spec_operators
            (@dep_str string text_versions spec_operators d) = Ok [d']).
Proof.
  repeat split; try reflexivity.
  intros [d' Hd']. vm_compute in Hd'. discriminate.
Qed.

(** ** search_for_pcfile *)

Lemma uninstalled_name_ne (pkgname : string) :
  pkgname +:+ "-uninstalled" <> pkgname.
Proof.
  intros Heq. apply (f_equal String.length) in Heq.
  rewrite app_length_str in Heq. simpl in Heq. lia.
Qed.

(** C3.  With "prefer uninstalled" on and an entry for the name followed
    by [-uninstalled], [search_for_pcfile] returns the paths of that entry,
    whatever the index holds, or does not hold, under the plain name; with
    "uninstalled only" on as well and no such entry, it returns the empty
    list, also when the plain name has an entry. *)
Theorem C3_uninstalled_entry_is_preferred
    (self : PkgSearcher) (options : Options) (pkgname : string) :
  prefer_uninstalled options = true ->
  (forall paths,
      _known_pkgs self !! (pkgname +:+ "-uninstalled") = Some paths ->
      search_for_pcfile self options pkgname = paths
      /\ forall plain : option (list string),
           search_for_pcfile
             (mk_searcher
                (partial_alter (fun _ => plain) pkgname (_known_pkgs self)))
             options pkgname
           = paths)
  /\ (uninstalled_only options = true ->
      _known_pkgs self !! (pkgname +:+ "-uninstalled") = None ->
      search_for_pcfile self options pkgname = []).
Proof.
  intros Hprefer. split.
  - intros paths Hentry. unfold search_for_pcfile. rewrite Hprefer.
    split; [by rewrite Hentry|].
    intros plain. simpl _known_pkgs.
    rewrite (lookup_partial_alter_ne _ _ pkgname)
      by (intros Heq; by apply (uninstalled_name_ne pkgname)).
    by rewrite Hentry.
  - intros Honly Hnone. unfold search_for_pcfile.
    by rewrite Hprefer, Hnone, Honly.
Qed.

Lemma C3_witness :
  prefer_uninstalled (mk_options true true) = true
  /\ search_for_pcfile sample_searcher (mk_options true true) "foo"
     = ["/src/foo/foo-uninstalled.pc"]
  /\ search_for_pcfile
       (mk_searcher (delete "foo" (_known_pkgs sample_searcher)))
       (mk_options true true) "foo"
     = ["/src/foo/foo-uninstalled.pc"].
Proof.
  destruct (C3_uninstalled_entry_is_preferred sample_searcher
              (mk_options true true) "foo" eq_refl) as [Hentry _].
  destruct (Hentry ["/src/foo/foo-uninstalled.pc"] eq_refl)
    as [Hpaths Hplain].
  split; [reflexivity|]. split; [exact Hpaths|]. exact (Hplain None).
Defined.

(** ** search_for_package *)

Section SearchProperties.

Context {Version Package : Type} `{VersionOps Version} `{OperatorText}
        `{OsPath} `{PackageOps Package Version}.

Lemma load_packages_parsed (pcfiles : list string)
    (globals : gmap string string) (pkgs : list Package) :
  Forall (parses_or_unreadable globals) pcfiles ->
  load_packages pcfiles globals pkgs
  = Ok (pkgs ++ parsed_packages pcfiles globals)%list.
Proof.
  revert pkgs. induction pcfiles as [|pcfile rest IH]; intros pkgs Hall.
  - simpl. by rewrite app_nil_r.
  - apply Forall_cons in Hall as [[[pkg Hpkg]|[msg Hio]] Hrest];
      unfold parsed_packages; simpl.
    + rewrite Hpkg. rewrite IH by done. by rewrite <- app_assoc.
    + rewrite Hio. by rewrite IH.
Qed.

Lemma filter_first {A} (f : A -> bool) (l1 l2 : list A) (x : A) :
  Forall (fun y => f y = false) l1 -> f x = true ->
  List.filter f (l1 ++ x :: l2)%list = x :: List.filter f l2.
Proof.
  intros Hl1 Hx. induction Hl1 as [|y l1 Hy _ IH]; simpl.
  - by rewrite Hx.
  - by rewrite Hy.
Qed.

Lemma filter_none {A} (f : A -> bool) (l : list A) :
  Forall (fun y => f y = false) l -> List.filter f l = [].
Proof.
  intros Hl. induction Hl as [|y l Hy _ IH]; simpl; [done|]. by rewrite Hy.
Qed.

(** C2.  When there are candidates and none can be opened,
    [search_for_package] raises [NoOpenableFilesError]; for a name
    without candidates it raises [PackageNotFoundError]; the two
    exceptions differ. *)
Theorem C2_all_candidates_unreadable
    (self : PkgSearcher) (options : Options) (dep : Dependency Version)
    (globals : gmap string string) :
  candidate_pcfiles self options dep <> [] ->
  Forall (fun pcfile =>
            exists strerror,
              Package_new pcfile globals = Raise (IOError strerror))
         (candidate_pcfiles self options dep) ->
  search_for_package self options dep globals
  = Raise (NoOpenableFilesError (dep_str dep))
  /\ NoOpenableFilesError (dep_str dep)
     <> PackageNotFoundError (dep_str dep)
  /\ forall self' : PkgSearcher,
       candidate_pcfiles self' options dep = [] ->
       search_for_package self' options dep globals
       = Raise (PackageNotFoundError (dep_str dep)).
Proof.
  intros Hsome Hall. split; [|split; [done|]].
  - unfold search_for_package.
    destruct (candidate_pcfiles self options dep) as [|f fs] eqn:Hc;
      [done|].
    rewrite load_packages_parsed.
    + assert (parsed_packages (f :: fs) globals = []) as ->; [|done].
      clear Hsome Hc. unfold parsed_packages.
      induction Hall as [|g gs [msg Hg] _ IH]; [done|].
      simpl. by rewrite Hg.
    + eapply Forall_impl; [exact Hall|]. intros g Hg. by right.
  - intros self' Hnone. unfold search_for_package. by rewrite Hnone.
Qed.

(** C1, amended.  When there are candidates, each of them parses or
    cannot be opened, and one at least parses, [search_for_package]
    returns the first parsed candidate, in the order of the candidates,
    whose version meets the requirement, and raises
    [PackageNotFoundError] when none does. *)
Theorem C1_first_match_among_parsed_candidates
    (self : PkgSearcher) (options : Options) (dep : Dependency Version)
    (globals : gmap string string) :
  candidate_pcfiles self options dep <> [] ->
  Forall (parses_or_unreadable globals)
         (candidate_pcfiles self options dep) ->
  parsed_packages (candidate_pcfiles self options dep) globals <> [] ->
  (forall before pkg after,
      parsed_packages (candidate_pcfiles self options dep) globals
      = (before ++ pkg :: after)%list ->
      Forall (fun other =>
                meets_requirement dep (properties_version other) = false)
             before ->
      meets_requirement dep (properties_version pkg) = true ->
      search_for_package self options dep globals = Ok pkg)
  /\ (Forall (fun other =>
                meets_requirement dep (properties_version other) = false)
             (parsed_packages (candidate_pcfiles self options dep) globals)
      -> search_for_package self options dep globals
         = Raise (PackageNotFoundError (dep_str dep))).
Proof.
  intros Hsome Hall Hparsed.
  assert (Hsearch :
    search_for_package self options dep globals
    = match List.filter
              (fun pkg => meets_requirement dep (properties_version pkg))
              (parsed_packages (candidate_pcfiles self options dep) globals)
      with
      | [] => Raise (PackageNotFoundError (dep_str dep))
      | pkg :: _ => Ok pkg
      end).
  { unfold search_for_package.
    destruct (candidate_pcfiles self options dep) as [|f fs]; [done|].
    rewrite load_packages_parsed by done. rewrite app_nil_l.
    destruct (parsed_packages (f :: fs) globals) as [|pkg pkgs];
      [done|reflexivity]. }
  split.
  - intros before pkg after Hsplit Hbefore Hpkg.
    rewrite Hsearch, Hsplit. by rewrite filter_first.
  - intros Hnone. rewrite Hsearch. by rewrite filter_none.
Qed.

End SearchProperties.

(** ** The search on the sample index *)

(** Evaluate the list a [Forall] ranges over. *)
Ltac eval_candidates :=
  match goal with
  | |- Forall ?P ?l => let l' := eval vm_compute in l in change (Forall P l')
  end.

(** One goal per element of the list. *)
Ltac each_candidate :=
  repeat match goal with
         | |- Forall _ (_ :: _) => constructor
         | |- Forall _ [] => constructor
         end.

Lemma C2_witness :
  sample_search (mk_options false false) (mk_dep "baz" ALWAYS_MATCH "")
  = Raise (NoOpenableFilesError "baz")
  /\ NoOpenableFilesError "baz" <> PackageNotFoundError "baz"
  /\ @search_for_package string SamplePackage text_versions spec_operators
       no_files (disk_packages sample_disk) (mk_searcher ∅)
       (mk_options false false) (mk_dep "baz" ALWAYS_MATCH "") ∅
     = Raise (PackageNotFoundError "baz").
Proof.
  destruct (@C2_all_candidates_unreadable string SamplePackage text_versions
              spec_operators no_files (disk_packages sample_disk)
              sample_searcher (mk_options false false)
              (mk_dep "baz" ALWAYS_MATCH "") ∅)
    as (Hraise & Hdiffer & Hnone).
  - discriminate.
  - eval_candidates. constructor; [|constructor].
    exists "No such file or directory". reflexivity.
  - split; [exact Hraise|]. split; [exact Hdiffer|].
    apply (Hnone (mk_searcher ∅)). reflexivity.
Defined.

Lemma C1_witness :
  sample_search (mk_options false false)
    (mk_dep "bar" GREATER_THAN_EQUAL "2.0")
  = Ok (mk_package "/usr/local/lib/pkgconfig/bar.pc" "2.0")
  /\ sample_search (mk_options false false)
       (mk_dep "bar" GREATER_THAN_EQUAL "3.0")
     = Raise (PackageNotFoundError "bar>=3.0").
Proof.
  split.
  - refine (proj1 (@C1_first_match_among_parsed_candidates
             string SamplePackage text_versions spec_operators no_files
             (disk_packages sample_disk) sample_searcher
             (mk_options false false)
             (mk_dep "bar" GREATER_THAN_EQUAL "2.0") ∅ _ _ _)
             [mk_package "/usr/lib/pkgconfig/bar.pc" "1.0"]
             (mk_package "/usr/local/lib/pkgconfig/bar.pc" "2.0") []
             _ _ _).
    + discriminate.
    + eval_candidates. each_candidate;
        ((left; eexists; reflexivity) || (right; eexists; reflexivity)).
    + discriminate.
    + reflexivity.
    + by repeat constructor.
    + reflexivity.
  - refine (proj2 (@C1_first_match_among_parsed_candidates
             string SamplePackage text_versions spec_operators no_files
             (disk_packages sample_disk) sample_searcher
             (mk_options false false)
             (mk_dep "bar" GREATER_THAN_EQUAL "3.0") ∅ _ _ _) _).
    + discriminate.
    + eval_candidates. each_candidate;
        ((left; eexists; reflexivity) || (right; eexists; reflexivity)).
    + discriminate.
    + vm_compute. by repeat constructor.
Defined.

(** C1 as stated fails: a candidate that parses and meets the requirement
    is not returned when another candidate refers to an undefined
    variable.  For [qux >= 1.0] the first candidate parses to version
    [2.0], the second raises [UndefinedVarError]: the search raises that
    error, with the path of the second file. *)
Lemma C1_counterexample :
  let dep := mk_dep "qux" GREATER_THAN_EQUAL "1.0" in
  let pkg := mk_package "/usr/lib/pkgconfig/qux.pc" "2.0" in
  @candidate_pcfiles string no_files sample_searcher
    (mk_options false false) dep
  = ["/usr/lib/pkgconfig/qux.pc"; "/opt/lib/pkgconfig/qux.pc"]
  /\ @Package_new _ _ (disk_packages sample_disk)
       "/usr/lib/pkgconfig/qux.pc" ∅ = Ok pkg
  /\ @meets_requirement string text_versions dep (pc_version pkg) = true
  /\ sample_search (mk_options false false) dep
     = Raise (UndefinedVarError "prefix" (Some "/opt/lib/pkgconfig/qux.pc"))
  /\ sample_search (mk_options false false) dep <> Ok pkg.
Proof. repeat split; try reflexivity. discriminate. Qed.

(* ===================================================================== *)
(** * Further properties of the sources *)

(** ** strip_comments *)

Lemma find_slice (c : ascii) (s : string) (n : nat) :
  find c s = Some n ->
  find c (slice_to n s) = None
  /\ exists rest, s = slice_to n s +:+ String c rest.
Proof.
  revert n. induction s as [|d s IH]; intros n Hfind; [done|].
  simpl in Hfind. destruct (eqb_char d c) eqn:Hd.
  - injection Hfind as <-. apply Ascii.eqb_eq in Hd as ->.
    split; [done|]. by exists s.
  - destruct (find c s) as [m|] eqn:Hm; [|done].
    injection Hfind as <-. destruct (IH m eq_refl) as [Hnone [rest Hrest]].
    unfold slice_to in *. simpl. rewrite Hd. split.
    + by rewrite Hnone.
    + exists rest. rewrite app_cons. by rewrite <- Hrest.
Qed.

(** X1.  [strip_comments] returns the part of the line before its first
    [#]: the result has no [#], the line is the result followed by nothing
    or by a text that starts with [#], and a line without [#] is returned
    as it is. *)
Theorem strip_comments_is_the_text_before_the_first_hash (line : string) :
  find "#" (strip_comments line) = None
  /\ (exists rest,
        line = strip_comments line +:+ rest
        /\ (rest = "" \/ exists r, rest = String "#" r))
  /\ (find "#" line = None -> strip_comments line = line).
Proof.
  unfold strip_comments.
  destruct (find "#" line) as [n|] eqn:Hfind.
  - destruct (find_slice _ _ _ Hfind) as [Hnone [rest Hrest]].
    split; [done|]. split; [|done].
    exists (String "#" rest). split; [done|]. right. by exists rest.
  - split; [done|]. split; [|done].
    exists "". split; [by rewrite app_empty_r|by left].
Qed.

(** ** merge_lines *)

Lemma rstrip_last_nonspace (s : string) (c : ascii) :
  last_char s = Some c -> is_space c = false -> rstrip s = s.
Proof.
  intros Hlast Hc. induction s as [|a s IH]; [done|].
  destruct s as [|b s].
  - injection Hlast as ->. simpl. by rewrite Hc.
  - change (last_char (String a (String b s)))
      with (last_char (String b s)) in Hlast.
    change (rstrip (String a (String b s)))
      with (match rstrip (String b s) with
            | "" => if is_space a then "" else String a ""
            | r => String a r
            end).
    by rewrite (IH Hlast).
Qed.

Lemma rstrip_all_space (t : string) :
  all_chars is_space t = true -> rstrip t = "".
Proof.
  induction t as [|a t IH]; [done|]. simpl.
  intros [Ha Ht]%andb_true_iff. by rewrite (IH Ht), Ha.
Qed.

Lemma rstrip_app_space (s t : string) :
  all_chars is_space t = true -> rstrip (s +:+ t) = rstrip s.
Proof.
  intros Ht. induction s as [|a s IH].
  - rewrite app_empty_l. by apply rstrip_all_space.
  - rewrite app_cons. simpl. by rewrite IH.
Qed.

Lemma slice_to_app (x y : string) :
  slice_to (String.length x) (x +:+ y) = x.
Proof.
  unfold slice_to. induction x as [|a x IH].
  - rewrite app_empty_l. by destruct y.
  - rewrite app_cons. simpl. by rewrite IH.
Qed.

Lemma last_char_is_Some (s : string) : s <> "" -> is_Some (last_char s).
Proof.
  induction s as [|a s IH]; [done|]. intros _.
  destruct s as [|b s]; [by eexists|].
  change (last_char (String a (String b s))) with (last_char (String b s)).
  by apply IH.
Qed.

Lemma ends_with_backslash_other (s : string) (c : ascii) :
  last_char s = Some c -> c <> "\"%char ->
  ends_with backslash s = Ok false.
Proof.
  intros Hlast Hc. unfold ends_with, backslash. rewrite Hlast.
  rewrite bool_decide_eq_false_2; [done|]. by intros [= ->].
Qed.

(** The last character of a line is no backslash when that of the
    stripped line is none. *)
Lemma last_char_of_unstripped (l : string) (c : ascii) :
  last_char (rstrip l) <> Some "\"%char ->
  last_char l = Some c -> c <> "\"%char.
Proof.
  intros Hstripped Hlast ->.
  apply Hstripped. by rewrite (rstrip_last_nonspace l "\").
Qed.

Lemma merge_loop_without_marker (lines : list string) :
  Forall (fun l => last_char (rstrip l) <> Some "\"%char) lines ->
  merge_loop backslash None lines = Ok (stripped_lines lines).
Proof.
  unfold stripped_lines.
  induction 1 as [|l rest Hl _ IH]; [done|].
  rewrite merge_loop_head. simpl map. simpl List.filter.
  destruct (rstrip l) as [|a r] eqn:Hr; [exact IH|].
  simpl is_empty_str. simpl negb. cbv iota.
  destruct (last_char_is_Some (String a r)) as [c Hc]; [done|].
  rewrite (ends_with_backslash_other _ c Hc) by (by intros ->).
  unfold bind. by rewrite IH.
Qed.

Lemma merge_lines_stripped (lines : list string) (l : string) :
  last lines = Some l -> l <> "" ->
  Forall (fun l => last_char (rstrip l) <> Some "\"%char) lines ->
  merge_lines lines backslash = Ok (stripped_lines lines).
Proof.
  intros Hlast Hl Hall. unfold merge_lines, last_line. rewrite Hlast.
  unfold bind at 1.
  destruct (last_char_is_Some l Hl) as [c Hc].
  rewrite (ends_with_backslash_other l c Hc).
  - unfold bind. by apply merge_loop_without_marker.
  - apply (last_char_of_unstripped l c); [|done].
    rewrite Forall_forall in Hall. apply Hall.
    by apply last_Some_elem_of.
Qed.

(** X2.  When no line ends, once stripped on the right, with the
    backslash, [merge_lines] merges nothing: it returns the lines stripped
    on the right, without the blank ones, in their order. *)
Theorem merge_lines_without_marker_strips_and_drops_blank_lines
    (lines : list string) (l : string) :
  last lines = Some l -> l <> "" ->
  Forall (fun l => last_char (rstrip l) <> Some "\"%char) lines ->
  merge_lines lines backslash = Ok (stripped_lines lines).
Proof. apply merge_lines_stripped. Qed.

Lemma merge_lines_without_marker_witness :
  merge_lines
    ["Name: x  " +:+ newline; newline; "   " +:+ newline; "Version: 1"]
    backslash
  = Ok ["Name: x"; "Version: 1"].
Proof.
  apply (merge_lines_without_marker_strips_and_drops_blank_lines
           ["Name: x  " +:+ newline; newline; "   " +:+ newline; "Version: 1"]
           "Version: 1").
  - reflexivity.
  - discriminate.
  - repeat constructor; discriminate.
Defined.

Lemma merge_loop_result (lines : list string) :
  forall pending merged,
    merge_loop backslash pending lines = Ok merged ->
    Forall (fun l => l <> "") merged /\ length merged <= length lines.
Proof.
  induction lines as [|l rest IH]; intros pending merged Hm.
  - destruct pending; [done|]. injection Hm as <-. by split.
  - assert (Hstep : forall new_line,
               new_line <> "" ->
               (c <- ends_with backslash new_line;;
                if c then
                  merge_loop backslash
                    (Some (slice_drop_last 2 new_line +:+ " ")) rest
                else
                  result <- merge_loop backslash None rest;;
                  Ok (new_line :: result)) = Ok merged ->
               Forall (fun l => l <> "") merged
               /\ length merged <= length (l :: rest)).
    { intros new_line Hne Hrun.
      destruct (ends_with backslash new_line) as [[|]|]; simpl in Hrun;
        [| |done].
      - destruct (IH _ _ Hrun) as [Hall Hlen]. split; [done|]. simpl. lia.
      - destruct (merge_loop backslash None rest) as [result|] eqn:Hrest;
          [|done].
        injection Hrun as <-. destruct (IH _ _ Hrest) as [Hall Hlen].
        split; [by constructor|]. simpl. lia. }
    destruct pending as [p|].
    + rewrite merge_loop_continued in Hm.
      destruct (p +:+ rstrip l) as [|a r] eqn:Hnew; [done|].
      by apply (Hstep (String a r)).
    + rewrite merge_loop_head in Hm.
      destruct (rstrip l) as [|a r] eqn:Hr.
      * destruct (IH _ _ Hm) as [Hall Hlen]. split; [done|]. simpl. lia.
      * by apply (Hstep (String a r)).
Qed.

(** X3.  The lines [merge_lines] returns are never empty, and there are
    no more of them than lines were given. *)
Theorem merge_lines_returns_non_empty_lines
    (lines merged : list string) :
  merge_lines lines backslash = Ok merged ->
  Forall (fun l => l <> "") merged /\ length merged <= length lines.
Proof.
  unfold merge_lines. intros Hm.
  destruct (last_line lines) as [l|]; [|done]. simpl in Hm.
  destruct (ends_with backslash l) as [[|]|]; simpl in Hm; [done| |done].
  by apply (merge_loop_result lines None).
Qed.

Lemma merge_lines_returns_non_empty_lines_witness :
  Forall (fun l => l <> "") ["x=1   y"; "z"]
  /\ length ["x=1   y"; "z"]
     <= length ["x=1 \" +:+ newline; "  y" +:+ newline; newline; "z"].
Proof.
  apply (merge_lines_returns_non_empty_lines
           ["x=1 \" +:+ newline; "  y" +:+ newline; newline; "z"]
           ["x=1   y"; "z"]).
  reflexivity.
Defined.

Lemma merge_lines_pair (x t y : string) (c : ascii) :
  all_chars is_space t = true ->
  y <> "" -> last_char (rstrip y) <> Some "\"%char ->
  merge_lines [x +:+ String c backslash +:+ t; y] backslash
  = Ok [x +:+ " " +:+ rstrip y].
Proof.
  intros Ht Hy Hystripped.
  assert (Hfirst : rstrip (x +:+ String c backslash +:+ t)
                   = x +:+ String c backslash).
  { rewrite <- app_assoc_str. rewrite rstrip_app_space by done.
    apply (rstrip_last_nonspace _ "\"); [|done].
    change (String c backslash) with (String c "" +:+ backslash).
    rewrite <- app_assoc_str. apply last_char_snoc. }
  assert (Hdrop : slice_drop_last 2 (x +:+ String c backslash) = x).
  { unfold slice_drop_last. rewrite app_length_str. simpl.
    replace (String.length x + 2 - 2) with (String.length x) by lia.
    apply slice_to_app. }
  assert (Hmarker : ends_with backslash (x +:+ String c backslash) = Ok true).
  { change (String c backslash) with (String c "" +:+ backslash).
    rewrite <- app_assoc_str. apply ends_with_backslash_snoc. }
  assert (Hnext : ends_with backslash ((x +:+ " ") +:+ rstrip y) = Ok false).
  { destruct (rstrip y) as [|a r] eqn:Hr.
    - rewrite app_empty_r.
      apply (ends_with_backslash_other _ " "); [apply last_char_snoc|done].
    - destruct (last_char_is_Some (String a r)) as [d Hd]; [done|].
      apply (ends_with_backslash_other _ d).
      + by rewrite last_char_app_cons.
      + intros ->. by apply Hystripped. }
  unfold merge_lines.
  change (last_line [x +:+ String c backslash +:+ t; y]) with (Ok y).
  unfold bind at 1.
  destruct (last_char_is_Some y Hy) as [d Hd].
  rewrite (ends_with_backslash_other y d Hd)
    by (by apply (last_char_of_unstripped y d)).
  unfold bind at 1. rewrite merge_loop_head, Hfirst.
  destruct (x +:+ String c backslash) as [|a r] eqn:Hline.
  { destruct x; discriminate. }
  simpl is_empty_str. cbv iota. rewrite Hmarker. unfold bind at 1.
  rewrite Hdrop, merge_loop_continued, Hnext. simpl.
  by rewrite app_assoc_str.
Qed.

(** X4.  A line that ends with a character [c] and the backslash, merged
    with the line after it: the merged line is the text before [c], a
    space and the next line stripped on the right.  The character before
    the backslash is dropped with it, whatever it is. *)
Theorem merge_lines_of_a_continued_line
    (x t y : string) (c : ascii) :
  all_chars is_space t = true ->
  y <> "" -> last_char (rstrip y) <> Some "\"%char ->
  merge_lines [x +:+ String c backslash +:+ t; y] backslash
  = Ok [x +:+ " " +:+ rstrip y].
Proof. apply merge_lines_pair. Qed.

Lemma merge_lines_of_a_continued_line_witness :
  merge_lines ["Libs: -L/usr/lib \" +:+ newline; "  -lfoo" +:+ newline]
    backslash
  = Ok ["Libs: -L/usr/lib" +:+ " " +:+ "  -lfoo"].
Proof.
  apply (merge_lines_of_a_continued_line
           "Libs: -L/usr/lib" newline ("  -lfoo" +:+ newline) " ");
    (reflexivity || discriminate).
Defined.

(** ** The two line grammars *)

Lemma re_key_value_separator (sep : ascii) (line : string) :
  is_Some (re_key_value sep line) ->
  exists rest, (span is_key_char line).2 = String sep rest.
Proof.
  unfold re_key_value. destruct (span is_key_char line) as [key rest].
  destruct (is_empty_str key); [by intros [? ?]|].
  destruct rest as [|c rest']; [by intros [? ?]|].
  destruct (eqb_char c sep) eqn:Hc; [|by intros [? ?]].
  apply Ascii.eqb_eq in Hc as ->. intros _. by exists rest'.
Qed.

Lemma line_grammars_disjoint (line : string) :
  ~ (is_Some (property_re line) /\ is_Some (variable_re line))
  /\ (is_Some (property_re line)
      <-> (split_pc_file_line line).2 = Some PROPERTY)
  /\ (is_Some (variable_re line)
      <-> (split_pc_file_line line).2 = Some VARIABLE).
Proof.
  assert (Hexcl : ~ (is_Some (property_re line)
                     /\ is_Some (variable_re line))).
  { intros [Hp Hv].
    destruct (re_key_value_separator _ _ Hp) as [r1 H1].
    destruct (re_key_value_separator _ _ Hv) as [r2 H2].
    rewrite H1 in H2. discriminate. }
  split; [exact Hexcl|]. unfold split_pc_file_line.
  destruct (property_re line) as [[k v]|] eqn:Hp.
  - split; [done|]. split; [|done].
    intros Hv. exfalso. apply Hexcl. split; [by eexists|done].
  - destruct (variable_re line) as [[k v]|] eqn:Hv; simpl.
    + split; [split; [by intros [? ?]|done]|]. split; [done|by eexists].
    + split; split; (done || by intros [? ?]).
Qed.

Lemma line_grammar_types (line : string) :
  (is_Some (property_re line) -> (split_pc_file_line line).2 = Some PROPERTY)
  /\ (is_Some (variable_re line)
      -> (split_pc_file_line line).2 = Some VARIABLE).
Proof.
  destruct (line_grammars_disjoint line) as (_ & Hp & Hv).
  split; [apply Hp|apply Hv].
Qed.

(** X5.  No line matches both grammars: the key of a line is followed by
    a colon or by an equals sign, not by both.  So the type
    [split_pc_file_line] returns is [PROPERTY] exactly for the lines the
    property grammar matches and [VARIABLE] exactly for those the variable
    grammar matches, whichever is tried first. *)
Theorem line_grammars_exclude_each_other (line : string) :
  ~ (is_Some (property_re line) /\ is_Some (variable_re line))
  /\ (is_Some (property_re line)
      <-> (split_pc_file_line line).2 = Some PROPERTY)
  /\ (is_Some (variable_re line)
      <-> (split_pc_file_line line).2 = Some VARIABLE).
Proof. apply line_grammars_disjoint. Qed.

Lemma re_key_value_written (sep : ascii) (key ws value : string) :
  is_key_char sep = false ->
  key <> "" -> all_chars is_key_char key = true ->
  all_chars is_space ws = true ->
  value <> "" -> starts_with_space value = false ->
  all_chars is_dot value = true ->
  re_key_value sep (key +:+ String sep (ws +:+ value))
  = Some (key, Some value).
Proof.
  intros Hsep Hne Hkey Hws Hvalue Hstart Hdot. unfold re_key_value.
  rewrite (span_prefix is_key_char key sep) by done.
  destruct key as [|a key']; [done|]. simpl is_empty_str. cbv iota.
  unfold eqb_char at 1. rewrite Ascii.eqb_refl.
  destruct value as [|v0 value']; [done|]. simpl in Hstart.
  rewrite (span_prefix is_space ws v0 value') by done.
  by rewrite (span_all is_dot (String v0 value')).
Qed.

(** X6.  A line written as a key of word characters and dots, the
    separator, white space and a value that starts with no white space and
    has no line feed splits into that key and that value: a property for
    the colon, a variable for the equals sign. *)
Theorem split_pc_file_line_reads_back_key_and_value
    (key ws value : string) :
  key <> "" -> all_chars is_key_char key = true ->
  all_chars is_space ws = true ->
  value <> "" -> starts_with_space value = false ->
  all_chars is_dot value = true ->
  split_pc_file_line (key +:+ ":" +:+ ws +:+ value)
  = (Some key, Some value, Some PROPERTY)
  /\ split_pc_file_line (key +:+ "=" +:+ ws +:+ value)
     = (Some key, Some value, Some VARIABLE).
Proof.
  intros Hne Hkey Hws Hvalue Hstart Hdot.
  unfold split_pc_file_line, property_re, variable_re.
  change (key +:+ ":" +:+ ws +:+ value)
    with (key +:+ String ":" (ws +:+ value)).
  change (key +:+ "=" +:+ ws +:+ value)
    with (key +:+ String "=" (ws +:+ value)).
  rewrite !re_key_value_written by done.
  split; [by destruct value|].
  assert (re_key_value ":" (key +:+ String "=" (ws +:+ value)) = None) as ->.
  { unfold re_key_value.
    rewrite (span_prefix is_key_char key "=") by done.
    by destruct key. }
  by destruct value.
Qed.

Lemma split_pc_file_line_reads_back_witness :
  split_pc_file_line ("Requires.private" +:+ ":" +:+ "  " +:+ "glib-2.0 >= 2.8")
  = (Some "Requires.private", Some "glib-2.0 >= 2.8", Some PROPERTY)
  /\ split_pc_file_line
       ("Requires.private" +:+ "=" +:+ "  " +:+ "glib-2.0 >= 2.8")
     = (Some "Requires.private", Some "glib-2.0 >= 2.8", Some VARIABLE).
Proof.
  apply (split_pc_file_line_reads_back_key_and_value
           "Requires.private" "  " "glib-2.0 >= 2.8");
    (reflexivity || discriminate).
Defined.

(** ** Invariants of the parser *)

Lemma split_pc_file_line_not_empty (line : string) (key value : string)
    (type : line_type) :
  split_pc_file_line line = (Some key, Some value, Some type) ->
  line <> "".
Proof. by intros Hsplit ->. Qed.

Section ParserInvariants.

Variable empty_raw_props : gmap string (option string).
Variable substitute :
  string -> gmap string string -> gmap string string -> result string.

Lemma initial_state_ok :
  state_ok empty_raw_props (initial_state empty_raw_props).
Proof. split; simpl; [done|constructor|constructor]. Qed.

Lemma parse_line_keeps (line : string) (st st' : parse_state)
    (globals : gmap string string) :
  parse_line empty_raw_props substitute line st globals = Ok st' ->
  vars st ⊆ vars st'
  /\ (state_ok empty_raw_props st ->
      state_ok empty_raw_props st' /\ raw_vars st ⊆ raw_vars st').
Proof.
  intros Hparse.
  destruct line as [|c line];
    [injection Hparse as <-; by split|].
  destruct (split_pc_file_line_cases (String c line))
    as [(key & value & [|] & Hsplit)|Hsplit].
  - rewrite (parse_line_variable _ _ _ key value) in Hparse by done.
    case_bool_decide as Hdefined; [done|].
    destruct (substitute _ _ _) as [v|]; simpl in Hparse; [|done].
    injection Hparse as <-. simpl.
    assert (Hfresh : vars st !! key = None).
    { destruct (vars st !! key) eqn:Hk; [|done].
      exfalso. apply Hdefined. by eexists. }
    split; [by apply insert_subseteq|].
    intros [Hkeys Hknown Honce]. split.
    + split; simpl; [|done|done]. by rewrite !dom_insert_L, Hkeys.
    + apply insert_subseteq. apply not_elem_of_dom. rewrite Hkeys.
      by apply not_elem_of_dom.
  - rewrite (parse_line_property _ _ _ key value) in Hparse by done.
    case_bool_decide as Hseen; [done|].
    destruct (empty_raw_props !! lower key) eqn:Hknown.
    + injection Hparse as <-. simpl. split; [done|].
      intros [Hkeys Hall Honce]. split; [|done].
      split; simpl; [done| |].
      * apply Forall_app. split; [done|]. constructor; [by eexists|constructor].
      * apply NoDup_app. split; [done|]. split.
        -- intros k Hk ->%list_elem_of_singleton. done.
        -- apply NoDup_singleton.
    + injection Hparse as <-. by split.
  - unfold parse_line in Hparse. rewrite Hsplit in Hparse.
    simpl in Hparse. injection Hparse as <-. by split.
Qed.

Lemma parse_lines_keeps (merged : list string) (st st' : parse_state)
    (globals : gmap string string) :
  parse_lines empty_raw_props substitute merged st globals = Ok st' ->
  vars st ⊆ vars st'
  /\ (state_ok empty_raw_props st ->
      state_ok empty_raw_props st' /\ raw_vars st ⊆ raw_vars st').
Proof.
  revert st. induction merged as [|line rest IH]; intros st Hparse.
  - injection Hparse as <-. by split.
  - rewrite parse_lines_cons in Hparse.
    destruct (parse_line _ _ _ st globals) as [st1|] eqn:Hline; [|done].
    simpl in Hparse.
    destruct (parse_line_keeps _ _ _ _ Hline) as [Hvars1 Hok1].
    destruct (IH _ Hparse) as [Hvars2 Hok2].
    split; [by etrans|].
    intros Hok. destruct (Hok1 Hok) as [Hst1 Hraw1].
    destruct (Hok2 Hst1) as [Hst' Hraw2]. split; [done|by etrans].
Qed.

(** X7.  A variable assigned twice in a file: when the lines up to the
    second assignment parse, the second assignment raises
    [MultiplyDefinedValueError] with the name of the variable, whatever
    lies between the two and whatever follows. *)
Theorem second_assignment_of_a_variable_is_refused
    (before between after : list string) (x y key v1 v2 : string)
    (st st1 : parse_state) (globals : gmap string string) :
  split_pc_file_line (strip (strip_comments x))
  = (Some key, Some v1, Some VARIABLE) ->
  split_pc_file_line (strip (strip_comments y))
  = (Some key, Some v2, Some VARIABLE) ->
  parse_lines empty_raw_props substitute (before ++ x :: between) st globals
  = Ok st1 ->
  parse_lines empty_raw_props substitute
    (before ++ x :: between ++ y :: after) st globals
  = Raise (MultiplyDefinedValueError key).
Proof.
  intros Hx Hy Hprefix.
  replace (before ++ x :: between ++ y :: after)%list
    with ((before ++ x :: between) ++ y :: after)%list
    by (by rewrite <- app_assoc).
  rewrite parse_lines_app, Hprefix. unfold bind at 1.
  rewrite parse_lines_cons.
  assert (Hdefined : is_Some (vars st1 !! key)).
  { rewrite parse_lines_app in Hprefix.
    destruct (parse_lines _ _ before st globals) as [st0|]; [|done].
    unfold bind at 1 in Hprefix. rewrite parse_lines_cons in Hprefix.
    destruct (parse_line _ _ (strip (strip_comments x)) st0 globals)
      as [stx|] eqn:Hline; [|done].
    unfold bind at 1 in Hprefix.
    assert (Hkey : is_Some (vars stx !! key)).
    { rewrite (parse_line_variable _ _ _ key v1) in Hline;
        [|by eapply split_pc_file_line_not_empty|done].
      case_bool_decide; [done|].
      destruct (substitute _ _ _) as [v|]; simpl in Hline; [|done].
      injection Hline as <-. simpl. rewrite lookup_insert_eq. by eexists. }
    destruct Hkey as [v Hv].
    destruct (parse_lines_keeps _ _ _ _ Hprefix) as [Hsub _].
    exists v. by apply (lookup_weaken _ _ _ _ Hv Hsub). }
  rewrite (parse_line_duplicate_variable _ _ _ key v2);
    [done|by eapply split_pc_file_line_not_empty|done|done].
Qed.

(** X8.  Starting from a state in which [raw_vars] and [vars] have the
    same keys, a successful parse ends in such a state, and every variable
    defined on the way keeps its raw text and its value to the end. *)
Theorem variables_keep_their_values
    (merged : list string) (st st' : parse_state)
    (globals : gmap string string) :
  dom (raw_vars st) = dom (vars st) ->
  parse_lines empty_raw_props substitute merged st globals = Ok st' ->
  dom (raw_vars st') = dom (vars st')
  /\ vars st ⊆ vars st' /\ raw_vars st ⊆ raw_vars st'.
Proof.
  intros Hkeys Hparse.
  revert st Hkeys Hparse.
  induction merged as [|line rest IH]; intros st Hkeys Hparse.
  - injection Hparse as <-. by split.
  - rewrite parse_lines_cons in Hparse.
    destruct (parse_line _ _ _ st globals) as [st1|] eqn:Hline; [|done].
    simpl in Hparse.
    assert (Hstep : dom (raw_vars st1) = dom (vars st1)
                    /\ vars st ⊆ vars st1 /\ raw_vars st ⊆ raw_vars st1).
    { destruct (strip (strip_comments line)) as [|c l'] eqn:Hl;
        [injection Hline as <-; by split|].
      destruct (split_pc_file_line_cases (String c l'))
        as [(key & value & [|] & Hsplit)|Hsplit].
      - rewrite (parse_line_variable _ _ _ key value) in Hline by done.
        case_bool_decide as Hdefined; [done|].
        destruct (substitute _ _ _) as [v|]; simpl in Hline; [|done].
        injection Hline as <-. simpl.
        assert (Hfresh : vars st !! key = None).
        { destruct (vars st !! key) eqn:Hk; [|done].
          exfalso. apply Hdefined. by eexists. }
        split; [by rewrite !dom_insert_L, Hkeys|].
        split; [by apply insert_subseteq|].
        apply insert_subseteq. apply not_elem_of_dom. rewrite Hkeys.
        by apply not_elem_of_dom.
      - rewrite (parse_line_property _ _ _ key value) in Hline by done.
        case_bool_decide; [done|].
        destruct (empty_raw_props !! lower key);
          injection Hline as <-; by split.
      - unfold parse_line in Hline. rewrite Hsplit in Hline.
        simpl in Hline. injection Hline as <-. by split. }
    destruct Hstep as (Hkeys1 & Hv1 & Hr1).
    destruct (IH st1 Hkeys1 Hparse) as (Hkeys' & Hv' & Hr').
    split; [done|]. split; by etrans.
Qed.

Lemma parse_lines_all_skipped (merged : list string) (st : parse_state)
    (globals : gmap string string) :
  Forall (fun l => strip (strip_comments l) = "") merged ->
  parse_lines empty_raw_props substitute merged st globals = Ok st.
Proof.
  induction 1 as [|l rest Hl _ IH]; [done|].
  rewrite parse_lines_cons, Hl. exact IH.
Qed.

(** X9.  A property line whose key is not known is ignored wherever it
    stands in the file and however often it is repeated: the file parses
    to what it parses to without the line. *)
Theorem unknown_property_is_ignored
    (x key value : string) (globals : gmap string string) :
  split_pc_file_line (strip (strip_comments x))
  = (Some key, Some value, Some PROPERTY) ->
  empty_raw_props !! lower key = None ->
  (forall before after,
      parse_lines empty_raw_props substitute (before ++ x :: after)
        (initial_state empty_raw_props) globals
      = parse_lines empty_raw_props substitute (before ++ after)
          (initial_state empty_raw_props) globals)
  /\ (forall lines lines' before after,
         merge_lines lines backslash = Ok (before ++ x :: after)%list ->
         merge_lines lines' backslash = Ok (before ++ after)%list ->
         parse_pc_file_lines empty_raw_props substitute lines globals
         = parse_pc_file_lines empty_raw_props substitute lines' globals).
Proof.
  intros Hsplit Hunknown.
  assert (Hlines : forall before after,
      parse_lines empty_raw_props substitute (before ++ x :: after)
        (initial_state empty_raw_props) globals
      = parse_lines empty_raw_props substitute (before ++ after)
          (initial_state empty_raw_props) globals).
  { intros before after. rewrite !parse_lines_app.
    destruct (parse_lines _ _ before _ globals) as [st1|] eqn:Hbefore;
      [|done].
    unfold bind. rewrite parse_lines_cons.
    destruct (parse_lines_keeps _ _ _ _ Hbefore) as [_ Hok].
    destruct (Hok initial_state_ok) as [[_ Hknown _] _].
    rewrite (parse_line_property _ _ _ key value);
      [|by eapply split_pc_file_line_not_empty|done].
    rewrite bool_decide_eq_false_2.
    - by rewrite Hunknown.
    - intros Hseen. rewrite Forall_forall in Hknown.
      destruct (Hknown key Hseen) as [d Hd]. by rewrite Hunknown in Hd. }
  split; [exact Hlines|].
  intros lines lines' before after Hm Hm'.
  unfold parse_pc_file_lines. rewrite Hm, Hm'.
  unfold bind at 1 3. by rewrite Hlines.
Qed.

Lemma parse_line_props_other (line k : string) (st st' : parse_state)
    (globals : gmap string string) :
  parse_line empty_raw_props substitute (strip (strip_comments line))
    st globals = Ok st' ->
  ~ declares k line ->
  props st' !! k = props st !! k.
Proof.
  intros Hparse Hother. unfold declares in Hother.
  destruct (strip (strip_comments line)) as [|c l] eqn:Hl;
    [by injection Hparse as <-|].
  destruct (split_pc_file_line_cases (String c l))
    as [(key & value & [|] & Hsplit)|Hsplit].
  - rewrite (parse_line_variable _ _ _ key value) in Hparse by done.
    case_bool_decide; [done|].
    destruct (substitute _ _ _) as [v|]; simpl in Hparse; [|done].
    by injection Hparse as <-.
  - rewrite (parse_line_property _ _ _ key value) in Hparse by done.
    case_bool_decide; [done|].
    destruct (empty_raw_props !! lower key);
      injection Hparse as <-; [|done].
    simpl. apply lookup_insert_ne. intros Hk. apply Hother. eauto.
  - unfold parse_line in Hparse. rewrite Hsplit in Hparse.
    simpl in Hparse. by injection Hparse as <-.
Qed.

Lemma parse_lines_props_other (merged : list string) (k : string)
    (st st' : parse_state) (globals : gmap string string) :
  parse_lines empty_raw_props substitute merged st globals = Ok st' ->
  Forall (fun line => ~ declares k line) merged ->
  props st' !! k = props st !! k.
Proof.
  intros Hparse Hall. revert st Hparse.
  induction Hall as [|line rest Hline _ IH]; intros st Hparse.
  - by injection Hparse as <-.
  - rewrite parse_lines_cons in Hparse.
    destruct (parse_line _ _ _ st globals) as [st1|] eqn:Hst1; [|done].
    simpl in Hparse. rewrite (IH _ Hparse).
    by apply (parse_line_props_other line k st st1 globals).
Qed.

(** X10.  A property that no line of the file declares, in any spelling,
    has its default in the result. *)
Theorem undeclared_property_keeps_its_default
    (lines merged : list string) (k : string)
    (globals raw resolved : gmap string string)
    (properties : gmap string (option string)) :
  merge_lines lines backslash = Ok merged ->
  Forall (fun line => ~ declares k line) merged ->
  parse_pc_file_lines empty_raw_props substitute lines globals
  = Ok (raw, resolved, properties) ->
  properties !! k = empty_raw_props !! k.
Proof.
  intros Hm Hall Hparse. unfold parse_pc_file_lines in Hparse.
  rewrite Hm in Hparse. unfold bind at 1 in Hparse.
  destruct (parse_lines _ _ merged _ globals) as [st|] eqn:Hlines; [|done].
  injection Hparse as _ _ <-.
  by rewrite (parse_lines_props_other _ k _ _ _ Hlines Hall).
Qed.

(** X11.  A known property declared on a line holds the value of that
    line at the end of a successful parse, when no later line declares it
    again under another spelling. *)
Theorem declared_property_holds_its_value
    (before after : list string) (x key value : string)
    (st st' : parse_state) (globals : gmap string string) :
  split_pc_file_line (strip (strip_comments x))
  = (Some key, Some value, Some PROPERTY) ->
  is_Some (empty_raw_props !! lower key) ->
  Forall (fun line => ~ declares (lower key) line) after ->
  parse_lines empty_raw_props substitute (before ++ x :: after) st globals
  = Ok st' ->
  props st' !! lower key = Some (Some value).
Proof.
  intros Hsplit [d Hknown] Hafter Hparse.
  rewrite parse_lines_app in Hparse.
  destruct (parse_lines _ _ before st globals) as [st0|]; [|done].
  unfold bind at 1 in Hparse. rewrite parse_lines_cons in Hparse.
  destruct (parse_line _ _ _ st0 globals) as [st1|] eqn:Hline; [|done].
  unfold bind at 1 in Hparse.
  rewrite (parse_lines_props_other _ _ _ _ _ Hparse Hafter).
  rewrite (parse_line_property _ _ _ key value) in Hline;
    [|by eapply split_pc_file_line_not_empty|done].
  case_bool_decide; [done|]. rewrite Hknown in Hline.
  injection Hline as <-. simpl. apply lookup_insert_eq.
Qed.

(** X12.  For a variable that is also a global, the value the file gives
    it reaches [raw_vars] only: the line is parsed as it would be with any
    other value, up to the raw text recorded. *)
Theorem value_of_an_overridden_variable_is_only_recorded
    (line1 line2 key value1 value2 g : string) (st : parse_state)
    (globals : gmap string string) :
  split_pc_file_line line1 = (Some key, Some value1, Some VARIABLE) ->
  split_pc_file_line line2 = (Some key, Some value2, Some VARIABLE) ->
  globals !! key = Some g ->
  parse_line empty_raw_props substitute line2 st globals
  = (st1 <- parse_line empty_raw_props substitute line1 st globals;;
     Ok (mk_state (<[key := strip value2]> (raw_vars st))
                  (vars st1) (props st1) (seen_props st1))).
Proof.
  intros H1 H2 Hg.
  rewrite (parse_line_variable _ _ line1 key value1);
    [|by eapply split_pc_file_line_not_empty|done].
  rewrite (parse_line_variable _ _ line2 key value2);
    [|by eapply split_pc_file_line_not_empty|done].
  case_bool_decide; [done|]. rewrite Hg. simpl.
  by destruct (substitute g (vars st) globals).
Qed.


Section ReadFileProperties.

Context `{FileSystem}.

(** X14.  A file that opens and holds nothing but blank lines and
    comments, none of them continued, reads to the defaults: no variable
    and the table of known properties. *)
Theorem read_pc_file_of_blank_lines_and_comments
    (filename : string) (lines : list string) (l : string)
    (globals : gmap string string) :
  readlines filename = Ok lines ->
  last lines = Some l -> l <> "" ->
  Forall (fun l => last_char (rstrip l) <> Some "\"%char
                   /\ strip (strip_comments (rstrip l)) = "") lines ->
  read_pc_file empty_raw_props substitute filename globals
  = Ok (∅, ∅, empty_raw_props).
Proof.
  intros Hread Hlast Hl Hall. unfold read_pc_file. rewrite Hread.
  unfold bind at 1. destruct lines as [|l0 rest]; [done|]. simpl is_nil.
  cbv iota. unfold parse_pc_file_lines.
  rewrite (merge_lines_stripped _ l Hlast Hl)
    by (eapply Forall_impl; [exact Hall|]; by intros ? [? _]).
  unfold bind at 1. rewrite parse_lines_all_skipped; [done|].
  unfold stripped_lines.
  apply Forall_forall. intros l' Hl'.
  apply list_elem_of_In, filter_In in Hl' as [Hin _].
  apply in_map_iff in Hin as (l'' & <- & Hin).
  rewrite Forall_forall in Hall.
  by apply Hall, list_elem_of_In.
Qed.

End ReadFileProperties.

End ParserInvariants.

Lemma second_assignment_witness :
  parse_lines sample_props no_substitution
    (["Name: x"] ++ "prefix=/usr" :: ["Version: 1"]
       ++ "prefix=  /opt" :: ["Description: d"])
    (initial_state sample_props) ∅
  = Raise (MultiplyDefinedValueError "prefix").
Proof.
  apply (second_assignment_of_a_variable_is_refused sample_props
           no_substitution ["Name: x"] ["Version: 1"] ["Description: d"]
           "prefix=/usr" "prefix=  /opt" "prefix" "/usr" "/opt"
           (initial_state sample_props)
           (mk_state {["prefix" := "/usr"]} {["prefix" := "/usr"]}
              (<["version" := Some "1"]>
                 (<["name" := Some "x"]> sample_props))
              ["Name"; "Version"])
           ∅).
  - reflexivity.
  - reflexivity.
  - vm_compute. reflexivity.
Defined.

Lemma variables_keep_their_values_witness :
  let st :=
    mk_state {["prefix" := "/usr"]} {["prefix" := "/usr"]} sample_props [] in
  let st' :=
    mk_state {["libdir" := "${prefix}/lib"; "prefix" := "/usr"]}
      {["libdir" := "${prefix}/lib"; "prefix" := "/usr"]} sample_props [] in
  parse_lines sample_props no_substitution ["libdir=${prefix}/lib"] st ∅
  = Ok st'
  /\ dom (raw_vars st') = dom (vars st')
  /\ vars st ⊆ vars st' /\ raw_vars st ⊆ raw_vars st'.
Proof.
  intros st st'.
  assert (Hparse : parse_lines sample_props no_substitution
                     ["libdir=${prefix}/lib"] st ∅ = Ok st')
    by (vm_compute; reflexivity).
  split; [exact Hparse|].
  apply (variables_keep_their_values sample_props no_substitution
           ["libdir=${prefix}/lib"] st st' ∅); [reflexivity|exact Hparse].
Defined.

(** A concrete line does not declare the property [k]. *)
Ltac not_declared :=
  let key := fresh "key" in
  let value := fresh "value" in
  let Hsplit := fresh "Hsplit" in
  let Hk := fresh "Hk" in
  intros (key & value & Hsplit & Hk); vm_compute in Hsplit;
  try discriminate;
  injection Hsplit as <- _; vm_compute in Hk; discriminate.

Lemma unknown_property_is_ignored_witness :
  parse_lines sample_props no_substitution
    (["Name: x"] ++ "Cflags.private: -DX  # not known" :: ["Version: 1"])
    (initial_state sample_props) ∅
  = parse_lines sample_props no_substitution (["Name: x"] ++ ["Version: 1"])
      (initial_state sample_props) ∅.
Proof.
  apply (proj1 (unknown_property_is_ignored sample_props no_substitution
           "Cflags.private: -DX  # not known" "Cflags.private" "-DX" ∅
           eq_refl eq_refl)).
Defined.

Lemma undeclared_property_keeps_its_default_witness :
  (<["version" := Some "1.0"]> sample_props) !! "description"
  = sample_props !! "description".
Proof.
  apply (undeclared_property_keeps_its_default sample_props no_substitution
           ["Version: 1.0"; "prefix=/usr"] ["Version: 1.0"; "prefix=/usr"]
           "description" ∅ {["prefix" := "/usr"]} {["prefix" := "/usr"]}).
  - reflexivity.
  - repeat constructor; not_declared.
  - vm_compute. reflexivity.
Defined.

Lemma declared_property_holds_its_value_witness :
  props (mk_state {["prefix" := "/usr"]} {["prefix" := "/usr"]}
           (<["version" := Some "1.0"]> sample_props) ["Version"])
    !! lower "Version"
  = Some (Some "1.0").
Proof.
  apply (declared_property_holds_its_value sample_props no_substitution
           [] ["prefix=/usr"] "Version: 1.0  # first" "Version" "1.0"
           (initial_state sample_props)
           (mk_state {["prefix" := "/usr"]} {["prefix" := "/usr"]}
              (<["version" := Some "1.0"]> sample_props) ["Version"])
           ∅).
  - reflexivity.
  - by eexists.
  - repeat constructor; not_declared.
  - vm_compute. reflexivity.
Defined.

Lemma value_of_an_overridden_variable_witness :
  parse_line sample_props no_substitution "prefix=/opt"
    (initial_state sample_props) {["prefix" := "/usr"]}
  = (st1 <- parse_line sample_props no_substitution "prefix=/usr/local"
              (initial_state sample_props) {["prefix" := "/usr"]};;
     Ok (mk_state (<["prefix" := strip "/opt"]>
                     (raw_vars (initial_state sample_props)))
                  (vars st1) (props st1) (seen_props st1))).
Proof.
  apply (value_of_an_overridden_variable_is_only_recorded sample_props
           no_substitution "prefix=/usr/local" "prefix=/opt" "prefix"
           "/usr/local" "/opt" "/usr" (initial_state sample_props)
           {["prefix" := "/usr"]});
    reflexivity.
Defined.


Lemma read_pc_file_of_blank_lines_witness :
  @read_pc_file sample_props no_substitution (files_of sample_files)
    "/usr/lib/pkgconfig/comments.pc" ∅
  = Ok (∅, ∅, sample_props).
Proof.
  apply (@read_pc_file_of_blank_lines_and_comments sample_props
           no_substitution (files_of sample_files)
           "/usr/lib/pkgconfig/comments.pc"
           ["# a package" +:+ newline; newline;
            "   # nothing else" +:+ newline]
           ("   # nothing else" +:+ newline) ∅).
  - reflexivity.
  - reflexivity.
  - discriminate.
  - repeat constructor; discriminate.
Defined.

(** ** Well-formed lines *)

Lemma span_satisfies (p : ascii -> bool) (s : string) :
  all_chars p (span p s).1 = true.
Proof.
  induction s as [|c s IH]; [done|]. simpl.
  destruct (p c) eqn:Hc; [|done].
  destruct (span p s) as [a b]. simpl in *. by rewrite Hc, IH.
Qed.

Lemma re_key_value_matches (sep : ascii) (line : string) :
  is_key_char sep = false ->
  is_Some (re_key_value sep line)
  <-> exists key rest,
        key <> "" /\ all_chars is_key_char key = true
        /\ line = key +:+ String sep rest.
Proof.
  intros Hsep. split.
  - intros Hmatch.
    destruct (re_key_value_separator _ _ Hmatch) as [rest Hrest].
    exists (span is_key_char line).1, rest.
    split; [|split].
    + intros Hkey. unfold re_key_value in Hmatch.
      destruct (span is_key_char line) as [key r]. simpl in Hkey.
      subst key. by destruct Hmatch.
    + apply span_satisfies.
    + by rewrite <- Hrest, span_app.
  - intros (key & rest & Hne & Hkey & ->). unfold re_key_value.
    rewrite (span_prefix is_key_char key sep) by done.
    destruct key; [done|]. simpl is_empty_str. cbv iota.
    unfold eqb_char at 1. rewrite Ascii.eqb_refl.
    destruct (span is_space rest) as [w r].
    destruct (span is_dot r) as [v r']. by eexists.
Qed.

(** X15.  A line is well formed, a property or a variable, exactly when it
    starts with a non-empty run of word characters and dots that is
    directly followed by a colon or an equals sign.  White space before
    the separator makes the line malformed. *)
Theorem well_formed_lines_have_the_separator_after_the_key
    (line : string) :
  is_Some (split_pc_file_line line).2
  <-> exists key sep rest,
        key <> "" /\ all_chars is_key_char key = true
        /\ (sep = ":" \/ sep = "=")%char
        /\ line = key +:+ String sep rest.
Proof.
  split.
  - unfold split_pc_file_line. intros Htype.
    destruct (property_re line) as [[k v]|] eqn:Hp.
    + assert (Hm : is_Some (re_key_value ":" line)) by (by eexists).
      apply re_key_value_matches in Hm as (key & rest & ? & ? & ?);
        [|done].
      exists key, ":"%char, rest. by auto.
    + destruct (variable_re line) as [[k v]|] eqn:Hv;
        [|by destruct Htype].
      assert (Hm : is_Some (re_key_value "=" line)) by (by eexists).
      apply re_key_value_matches in Hm as (key & rest & ? & ? & ?);
        [|done].
      exists key, "="%char, rest. by auto.
  - intros (key & sep & rest & Hne & Hkey & [-> | ->] & Hline).
    + assert (Hm : is_Some (property_re line)).
      { apply re_key_value_matches; [done|]. by exists key, rest. }
      apply (proj1 (line_grammar_types line)) in Hm. rewrite Hm. by eexists.
    + assert (Hm : is_Some (variable_re line)).
      { apply re_key_value_matches; [done|]. by exists key, rest. }
      apply (proj2 (line_grammar_types line)) in Hm. rewrite Hm. by eexists.
Qed.

(** ** Dependency *)

(** For a version type whose [!=] is the negation of its [==],
    [Dependency.__ne__] is the negation of [Dependency.__eq__]. *)
Lemma dependency_ne_is_not_eq {Version : Type} `{VersionOps Version}
    (d1 d2 : Dependency Version) :
  (forall a b : Version, version_ne a b = negb (version_eq a b)) ->
  dep_ne d1 d2 = negb (dep_eq d1 d2).
Proof.
  intros Hne. unfold dep_ne, dep_eq. rewrite Hne.
  by rewrite !negb_andb.
Qed.

Lemma dependency_ne_is_not_eq_witness :
  @dep_ne string text_versions (mk_dep "a" EQUAL "1") (mk_dep "a" EQUAL "2")
  = negb (@dep_eq string text_versions
            (mk_dep "a" EQUAL "1") (mk_dep "a" EQUAL "2")).
Proof.
  apply (@dependency_ne_is_not_eq string text_versions). reflexivity.
Defined.

(** ** The scan of the package-spec pattern *)

Lemma findall_empty : findall "" = [].
Proof. reflexivity. Qed.

Lemma findall_step (c : ascii) (s : string) :
  findall (String c s)
  = match match_spec (String c s) with
    | Some (groups, rest) => groups :: findall rest
    | None => findall s
    end.
Proof.
  unfold findall at 1. simpl String.length. simpl findall_fuel.
  destruct (match_spec (String c s)) as [[groups rest]|] eqn:Hm.
  - apply match_spec_shorter in Hm. simpl in Hm.
    rewrite findall_fuel_enough by lia. done.
  - by rewrite findall_fuel_enough.
Qed.

Lemma match_spec_no_name (c : ascii) (s : string) :
  is_name_char c = false -> match_spec (String c s) = None.
Proof. intros Hc. unfold match_spec. simpl. by rewrite Hc. Qed.

Lemma match_spec_None (c : ascii) (s : string) :
  match_spec (String c s) = None -> is_name_char c = false.
Proof.
  unfold match_spec. simpl. destruct (is_name_char c); [|done].
  destruct (span is_name_char s) as [a b]. simpl.
  destruct b as [|c0 b]; [done|]. by destruct (eqb_char c0 ",").
Qed.

Lemma findall_skip (c : ascii) (s : string) :
  is_name_char c = false -> findall (String c s) = findall s.
Proof. intros Hc. by rewrite findall_step, match_spec_no_name. Qed.

Lemma is_space_not_name (c : ascii) :
  is_space c = true -> is_name_char c = false.
Proof.
  intros Hc. unfold is_name_char, is_version_char. by rewrite Hc.
Qed.

Lemma findall_no_name (s : string) :
  all_chars (fun c => negb (is_name_char c)) s = true -> findall s = [].
Proof.
  induction s as [|c s IH]; [done|]. simpl.
  intros [Hc Hs]%andb_true_iff. apply negb_true_iff in Hc.
  rewrite findall_skip by done. by apply IH.
Qed.

Lemma findall_lstrip (s : string) : findall (lstrip s) = findall s.
Proof.
  induction s as [|c s IH]; [done|]. simpl.
  destruct (is_space c) eqn:Hc; [|done].
  rewrite IH. symmetry. apply findall_skip. by apply is_space_not_name.
Qed.

(** A class without the first character of [t] stops before [t]. *)
Lemma span_app_stop (p : ascii -> bool) (s : string) (c : ascii)
    (t : string) :
  p c = false ->
  span p (s +:+ String c t)
  = ((span p s).1, (span p s).2 +:+ String c t).
Proof.
  intros Hc. induction s as [|a s IH].
  - rewrite app_empty_l. simpl. by rewrite Hc.
  - rewrite app_cons. simpl. destruct (p a); [|done].
    rewrite IH. by destruct (span p s).
Qed.

(** White space behind a text that is not all white space. *)
Lemma span_space_app (s ws : string) :
  (span is_space s).2 <> "" ->
  span is_space (s +:+ ws)
  = ((span is_space s).1, (span is_space s).2 +:+ ws).
Proof.
  induction s as [|a s IH]; [done|].
  rewrite app_cons. simpl. destruct (is_space a); [|done].
  destruct (span is_space s) as [x y]. simpl in *.
  intros Hy. by rewrite (IH Hy).
Qed.

Lemma span_space_all (s ws : string) :
  (span is_space s).2 = "" -> all_chars is_space ws = true ->
  span is_space (s +:+ ws) = (s +:+ ws, "").
Proof.
  intros Hs Hws. apply span_all. rewrite all_chars_app, Hws, andb_true_r.
  pose proof (span_satisfies is_space s) as Hall.
  pose proof (span_app is_space s) as Happ.
  rewrite Hs, app_empty_r in Happ. by rewrite Happ in Hall.
Qed.

Lemma span_app_space_stop (p : ascii -> bool) (s ws : string) :
  (forall c, is_space c = true -> p c = false) ->
  all_chars is_space ws = true ->
  span p (s +:+ ws) = ((span p s).1, (span p s).2 +:+ ws).
Proof.
  intros Hp Hws. destruct ws as [|c ws'].
  - rewrite !app_empty_r. by destruct (span p s).
  - simpl in Hws. apply andb_true_iff in Hws as [Hc _].
    apply span_app_stop. by apply Hp.
Qed.

Lemma is_space_not_op (c : ascii) : is_space c = true -> is_op_char c = false.
Proof.
  intros Hc. destruct (is_op_char c) eqn:Hop; [|done].
  by rewrite (is_op_char_not_space c Hop) in Hc.
Qed.

Lemma is_space_not_version (c : ascii) :
  is_space c = true -> is_version_char c = false.
Proof. intros Hc. unfold is_version_char. by rewrite Hc. Qed.

(** White space behind the text changes no match, only what is left. *)
Lemma match_group_app_space (nm rest ws : string) :
  all_chars is_space ws = true ->
  match_group nm (rest +:+ ws)
  = ((match_group nm rest).1, (match_group nm rest).2 +:+ ws).
Proof.
  intros Hws. unfold match_group.
  destruct (span is_space rest) as [w1 r1] eqn:H1.
  destruct (decide (r1 = "")) as [->|Hr1].
  { rewrite span_space_all by (by rewrite ?H1). done. }
  rewrite span_space_app by (by rewrite H1). rewrite H1. cbn [fst snd].
  rewrite (span_app_space_stop is_op_char) by (done || apply is_space_not_op).
  destruct (span is_op_char r1) as [o r2] eqn:H2. cbn [fst snd].
  destruct (is_empty_str o); [done|].
  destruct (span is_space r2) as [w2 r3] eqn:H3.
  destruct (decide (r3 = "")) as [->|Hr3].
  { rewrite span_space_all by (by rewrite ?H3). cbn [span fst snd].
    simpl is_empty_str. cbn [negb].
    by destruct (2 <=? String.length o)%nat. }
  rewrite span_space_app by (by rewrite H3). rewrite H3. cbn [fst snd].
  rewrite (span_app_space_stop is_version_char)
    by (done || apply is_space_not_version).
  destruct (span is_version_char r3) as [v r4]. cbn [fst snd].
  destruct (negb (is_empty_str v)); [done|].
  by destruct (2 <=? String.length o)%nat.
Qed.

Lemma match_spec_app_space (s ws rest : string)
    (groups : string * string * string * string) :
  all_chars is_space ws = true ->
  match_spec s = Some (groups, rest) ->
  match_spec (s +:+ ws) = Some (groups, rest +:+ ws).
Proof.
  intros Hws. unfold match_spec.
  rewrite (span_app_space_stop is_name_char)
    by (done || apply is_space_not_name).
  destruct (span is_name_char s) as [nm r0]. cbn [fst snd].
  destruct (is_empty_str nm); [done|].
  pose proof (match_group_app_space nm r0 ws Hws) as Hg.
  destruct r0 as [|c0 r0'].
  - rewrite app_empty_l in *. intros [= <- <-].
    assert (Hnone : match_group nm "" = ((nm, "", "", ""), ""))
      by reflexivity.
    rewrite Hnone in Hg. cbn [fst snd] in Hg. rewrite app_empty_l in *.
    destruct ws as [|c ws']; [done|].
    simpl in Hws. apply andb_true_iff in Hws as [Hc _].
    assert (eqb_char c "," = false) as ->.
    { unfold eqb_char. apply Ascii.eqb_neq. by intros ->. }
    by rewrite Hg.
  - rewrite app_cons. destruct (eqb_char c0 ","); [by intros [= <- <-]|].
    intros [= Heq]. rewrite <- app_cons, Hg, Heq. done.
Qed.

Lemma findall_app_space (s ws : string) :
  all_chars is_space ws = true -> findall (s +:+ ws) = findall s.
Proof.
  intros Hws.
  remember (String.length s) as n eqn:Hn. revert s Hn.
  induction (lt_wf n) as [n _ IH]. intros s ->.
  destruct s as [|c s'].
  - rewrite app_empty_l. apply findall_no_name.
    eapply all_chars_impl; [|exact Hws].
    intros a Ha. by rewrite (is_space_not_name a Ha).
  - rewrite app_cons, !findall_step. rewrite <- app_cons.
    destruct (match_spec (String c s')) as [[groups rest]|] eqn:Hm.
    + rewrite (match_spec_app_space _ ws _ _ Hws Hm). f_equal.
      apply match_spec_shorter in Hm.
      by apply (IH (String.length rest)).
    + apply match_spec_None in Hm.
      rewrite app_cons, match_spec_no_name by done.
      apply (IH (String.length s')); [simpl; lia|done].
Qed.

Lemma rstrip_decompose (s : string) :
  exists ws, all_chars is_space ws = true /\ s = rstrip s +:+ ws.
Proof.
  induction s as [|c s (ws & Hws & Hs)]; [by exists ""|]. simpl.
  destruct (rstrip s) as [|a r] eqn:Hr.
  - rewrite app_empty_l in Hs. subst ws.
    destruct (is_space c) eqn:Hc.
    + exists (String c s). simpl. by rewrite Hc, Hws.
    + exists s. by rewrite app_cons, app_empty_l.
  - exists ws. split; [done|]. rewrite app_cons. by rewrite <- Hs.
Qed.

Lemma findall_rstrip (s : string) : findall (rstrip s) = findall s.
Proof.
  destruct (rstrip_decompose s) as (ws & Hws & Hs).
  rewrite Hs at 2. by rewrite findall_app_space.
Qed.

(** The [strip()] of [parse_package_spec_list] changes no match. *)
Lemma findall_strip (s : string) : findall (strip s) = findall s.
Proof. unfold strip. by rewrite findall_rstrip, findall_lstrip. Qed.

(** A character outside white space, operators and versions ends every
    part of a match: the text behind it changes no match, only what is
    left. *)
Lemma match_group_app_stop (nm rest t : string) (c : ascii) :
  is_space c = false -> is_op_char c = false ->
  is_version_char c = false ->
  match_group nm (rest +:+ String c t)
  = ((match_group nm rest).1, (match_group nm rest).2 +:+ String c t).
Proof.
  intros Hs Ho Hv. unfold match_group.
  rewrite (span_app_stop is_space) by done.
  destruct (span is_space rest) as [w1 r1]. cbn [fst snd].
  rewrite (span_app_stop is_op_char) by done.
  destruct (span is_op_char r1) as [o r2]. cbn [fst snd].
  destruct (is_empty_str o); [done|].
  rewrite (span_app_stop is_space) by done.
  destruct (span is_space r2) as [w2 r3]. cbn [fst snd].
  rewrite (span_app_stop is_version_char) by done.
  destruct (span is_version_char r3) as [v r4]. cbn [fst snd].
  destruct (negb (is_empty_str v)); [done|].
  by destruct (2 <=? String.length o)%nat.
Qed.

Lemma match_spec_app_comma (s s2 rest : string)
    (groups : string * string * string * string) :
  match_spec s = Some (groups, rest) ->
  exists groups' rest',
    match_spec (s +:+ String "," s2) = Some (groups', rest')
    /\ groups_read groups' = groups_read groups
    /\ findall rest' = findall (rest +:+ String "," s2).
Proof.
  unfold match_spec.
  rewrite (span_app_stop is_name_char) by done.
  destruct (span is_name_char s) as [nm r0]. cbn [fst snd].
  destruct (is_empty_str nm); [done|].
  destruct r0 as [|c0 r0'].
  - intros [= <- <-]. rewrite !app_empty_l.
    change (eqb_char "," ",") with true. cbv iota.
    eexists _, _. split; [done|]. split; [done|].
    by rewrite findall_skip.
  - rewrite app_cons. destruct (eqb_char c0 ",").
    + intros [= <- <-]. by eexists _, _.
    + intros [= Heq]. rewrite <- app_cons.
      rewrite (match_group_app_stop _ _ s2 ",") by done.
      rewrite Heq. by eexists _, _.
Qed.

Lemma findall_comma (s1 s2 : string) :
  map groups_read (findall (s1 +:+ String "," s2))
  = (map groups_read (findall s1) ++ map groups_read (findall s2))%list.
Proof.
  remember (String.length s1) as n eqn:Hn. revert s1 Hn.
  induction (lt_wf n) as [n _ IH]. intros s1 ->.
  destruct s1 as [|c s1'].
  - rewrite app_empty_l. by rewrite findall_skip.
  - rewrite (findall_step c s1').
    destruct (match_spec (String c s1')) as [[groups rest]|] eqn:Hm.
    + destruct (match_spec_app_comma _ s2 _ _ Hm)
        as (groups' & rest' & Hm' & Hread & Hrest).
      rewrite app_cons in *. rewrite findall_step, Hm'.
      simpl map. rewrite Hread, Hrest, <- app_comm_cons. f_equal.
      apply match_spec_shorter in Hm.
      by apply (IH (String.length rest)).
    + apply match_spec_None in Hm.
      rewrite app_cons, findall_skip by done.
      apply (IH (String.length s1')); [simpl; lia|done].
Qed.

Section SpecListProperties.

Context {Version : Type} `{VersionOps Version} `{OperatorText}.

Lemma dependency_of_match_read
    (g g' : string * string * string * string) :
  groups_read g = groups_read g' ->
  dependency_of_match g = dependency_of_match g'.
Proof.
  destruct g as [[[p0 p1] p2] p3], g' as [[[q0 q1] q2] q3].
  by intros [= -> -> ->].
Qed.

Lemma dependencies_of_matches_read
    (l l' : list (string * string * string * string)) :
  map groups_read l = map groups_read l' ->
  dependencies_of_matches l = dependencies_of_matches l'.
Proof.
  revert l'. induction l as [|g l IH]; intros [|g' l'] Heq; try done.
  injection Heq as Hg Hl. simpl.
  by rewrite (dependency_of_match_read g g' Hg), (IH l' Hl).
Qed.

Lemma dependencies_of_matches_app
    (l1 l2 : list (string * string * string * string)) :
  dependencies_of_matches (l1 ++ l2)
  = parse_both (dependencies_of_matches l1) (dependencies_of_matches l2).
Proof.
  unfold parse_both. induction l1 as [|g l1 IH]; simpl.
  - by destruct (dependencies_of_matches l2).
  - destruct (dependency_of_match g) as [d|]; [|done]. simpl.
    rewrite IH.
    destruct (dependencies_of_matches l1) as [d1|]; [|done]. simpl.
    by destruct (dependencies_of_matches l2).
Qed.

(** X16.  A comma splits the text: the dependencies of a text with a
    comma in it are those of the part before the comma followed by those
    of the part after it, each part parsed on its own. *)
Theorem comma_separates_package_specs (s1 s2 : string) :
  parse_package_spec_list (s1 +:+ "," +:+ s2)
  = parse_both (parse_package_spec_list s1) (parse_package_spec_list s2).
Proof.
  unfold parse_package_spec_list. rewrite !findall_strip.
  rewrite <- dependencies_of_matches_app.
  apply dependencies_of_matches_read.
  rewrite map_app. apply findall_comma.
Qed.

(** X17.  A text without a name character, white space, commas and
    operator characters only, parses to the empty list. *)
Theorem text_without_names_has_no_dependencies (value : string) :
  all_chars (fun c => negb (is_name_char c)) value = true ->
  parse_package_spec_list value = Ok [].
Proof.
  intros Hvalue. unfold parse_package_spec_list.
  by rewrite findall_strip, findall_no_name.
Qed.

End SpecListProperties.

Lemma text_without_names_witness :
  @parse_package_spec_list string text_versions spec_operators
    " , >= ,, != " = Ok [].
Proof.
  apply (@text_without_names_has_no_dependencies string text_versions
           spec_operators " , >= ,, != ").
  reflexivity.
Defined.

(** ** One entry of a package-spec list *)

Lemma span_until (p : ascii -> bool) (s t : string) :
  all_chars p s = true -> stops p t = true -> span p (s +:+ t) = (s, t).
Proof.
  intros Hs Ht. destruct t as [|c t].
  - rewrite app_empty_r. by apply span_all.
  - apply span_prefix; [done|]. by apply negb_true_iff.
Qed.

Lemma span_stops (p : ascii -> bool) (t : string) :
  stops p t = true -> span p t = ("", t).
Proof. intros Ht. by apply (span_until p "" t). Qed.

Lemma stops_app (p : ascii -> bool) (s t : string) :
  stops p s = true -> s <> "" -> stops p (s +:+ t) = true.
Proof. by destruct s. Qed.

Lemma stops_app_empty (p : ascii -> bool) (s t : string) :
  (s = "" -> stops p t = true) -> (s <> "" -> stops p s = true) ->
  stops p (s +:+ t) = true.
Proof.
  intros Ht Hs. destruct s as [|c s]; [by apply Ht|]. by apply Hs.
Qed.

Lemma stops_of_class (p q : ascii -> bool) (s : string) :
  (forall c, q c = true -> p c = false) ->
  all_chars q s = true -> stops p s = true.
Proof.
  intros Hpq Hs. destruct s as [|c s]; [done|]. simpl in *.
  apply andb_true_iff in Hs as [Hc _]. by rewrite (Hpq c Hc).
Qed.

Lemma is_op_not_name (c : ascii) : is_op_char c = true -> is_name_char c = false.
Proof. intros Hc. unfold is_name_char. by rewrite Hc, andb_false_r. Qed.

Lemma is_version_not_space (c : ascii) :
  is_version_char c = true -> is_space c = false.
Proof.
  unfold is_version_char. intros [Hc _]%andb_true_iff.
  by apply negb_true_iff.
Qed.

Lemma is_version_not_comma (c : ascii) :
  is_version_char c = true -> eqb_char c "," = false.
Proof.
  unfold is_version_char. intros [_ Hc]%andb_true_iff.
  by apply negb_true_iff.
Qed.

(** A name, white space, an operator, white space and a version are one
    match with these three groups. *)
Lemma match_spec_entry (nm w1 op w2 ver : string) :
  nm <> "" -> all_chars is_name_char nm = true ->
  all_chars is_space w1 = true ->
  op <> "" -> all_chars is_op_char op = true ->
  all_chars is_space w2 = true ->
  ver <> "" -> all_chars is_version_char ver = true ->
  starts_with_op ver = false ->
  match_spec (nm +:+ w1 +:+ op +:+ w2 +:+ ver)
  = Some ((nm, w1 +:+ op +:+ w2 +:+ ver, op, ver), "").
Proof.
  intros Hnm Hname Hw1 Hop Hops Hw2 Hver Hvers Hstart.
  assert (Hver_sp : stops is_space ver = true).
  { apply (stops_of_class _ is_version_char); [|done].
    apply is_version_not_space. }
  assert (Hver_op : stops is_op_char ver = true).
  { destruct ver; [done|]. simpl in *. by rewrite Hstart. }
  assert (Hop_sp : stops is_space (op +:+ w2 +:+ ver) = true).
  { apply stops_app; [|done].
    apply (stops_of_class _ is_op_char); [|done].
    apply is_op_char_not_space. }
  assert (Hw2_op : stops is_op_char (w2 +:+ ver) = true).
  { apply stops_app_empty; [done|]. intros _.
    apply (stops_of_class _ is_space); [|done]. apply is_space_not_op. }
  assert (Htail : stops is_name_char (w1 +:+ op +:+ w2 +:+ ver) = true).
  { apply stops_app_empty.
    - intros _. apply stops_app; [|done].
      apply (stops_of_class _ is_op_char); [|done]. apply is_op_not_name.
    - intros _. apply (stops_of_class _ is_space); [|done].
      apply is_space_not_name. }
  assert (Hcomma : match w1 +:+ op +:+ w2 +:+ ver with
                   | String c _ => eqb_char c "," = false
                   | "" => True
                   end).
  { destruct w1 as [|c w1'].
    - rewrite app_empty_l. destruct op as [|c op']; [done|].
      rewrite app_cons. simpl in Hops.
      apply andb_true_iff in Hops as [Hc _].
      by apply is_op_char_not_comma.
    - rewrite app_cons. simpl in Hw1.
      apply andb_true_iff in Hw1 as [Hc _].
      unfold eqb_char. apply Ascii.eqb_neq. by intros ->. }
  unfold match_spec. rewrite (span_until is_name_char) by done.
  destruct nm as [|a nm']; [done|]. simpl is_empty_str. cbv iota.
  assert (Hgroup : match_group (String a nm') (w1 +:+ op +:+ w2 +:+ ver)
                   = ((String a nm', w1 +:+ op +:+ w2 +:+ ver, op, ver), "")).
  { unfold match_group.
    rewrite (span_until is_space w1) by done.
    rewrite (span_until is_op_char op) by done.
    destruct op as [|c op']; [done|]. simpl is_empty_str. cbv iota.
    rewrite (span_until is_space w2) by done.
    rewrite (span_all is_version_char ver) by done.
    by destruct ver. }
  destruct (w1 +:+ op +:+ w2 +:+ ver) as [|c tail]; [by rewrite Hgroup|].
  by rewrite Hcomma, Hgroup.
Qed.

Lemma slice_drop_last_snoc (s : string) (c : ascii) :
  slice_drop_last 1 (s +:+ String c "") = s.
Proof.
  unfold slice_drop_last. rewrite app_length_str. simpl.
  replace (String.length s + 1 - 1) with (String.length s) by lia.
  apply slice_to_app.
Qed.

Lemma last_str_snoc (s : string) (c : ascii) :
  last_str (s +:+ String c "") = String c "".
Proof. unfold last_str. by rewrite last_char_snoc. Qed.

(** A name and operator characters at the end of the text: the last of
    two or more goes to the version, a single one is left out. *)
Lemma match_spec_trailing_operator (nm op : string) (c : ascii) :
  nm <> "" -> all_chars is_name_char nm = true ->
  all_chars is_op_char op = true -> is_op_char c = true ->
  match_spec (nm +:+ op +:+ String c "")
  = Some (if is_empty_str op then ((nm, "", "", ""), String c "")
          else ((nm, op +:+ String c "", op, String c ""), "")).
Proof.
  intros Hnm Hname Hops Hc.
  assert (Hall : all_chars is_op_char (op +:+ String c "") = true).
  { rewrite all_chars_app, Hops. simpl. by rewrite Hc. }
  assert (Hne : op +:+ String c "" <> "") by (by destruct op).
  unfold match_spec.
  rewrite (span_until is_name_char).
  2: done.
  2: { apply (stops_of_class _ is_op_char); [|done]. apply is_op_not_name. }
  destruct nm as [|a nm']; [done|]. simpl is_empty_str. cbv iota.
  assert (Hgroup :
    match_group (String a nm') (op +:+ String c "")
    = if is_empty_str op then ((String a nm', "", "", ""), String c "")
      else ((String a nm', op +:+ String c "", op, String c ""), "")).
  { unfold match_group.
    rewrite (span_stops is_space).
    2: { apply (stops_of_class _ is_op_char); [|done].
         apply is_op_char_not_space. }
    rewrite (span_all is_op_char) by done.
    destruct (op +:+ String c "") as [|b o'] eqn:Ho; [done|].
    simpl is_empty_str. cbv iota. cbn [span]. simpl is_empty_str.
    cbn [negb]. rewrite <- Ho.
    rewrite slice_drop_last_snoc, last_str_snoc, app_length_str.
    destruct op as [|b' op']; [done|]. simpl.
    by rewrite Nat.add_1_r. }
  destruct (op +:+ String c "") as [|b tail] eqn:Ho; [done|].
  assert (eqb_char b "," = false) as ->.
  { apply is_op_char_not_comma. simpl in Hall.
    by apply andb_true_iff in Hall as [? _]. }
  by rewrite Hgroup.
Qed.


Section EntryProperties.

Context {Version : Type} `{VersionOps Version} `{OperatorText}.

(** X18.  One entry, white space around the operator or none: a name, an
    operator text and a version text parse to the one dependency with that
    name, the operator [text_to_operator] gives for the text, and the
    version of the version text. *)
Theorem entry_with_operator_and_version
    (nm w1 op w2 ver : string) :
  nm <> "" -> all_chars is_name_char nm = true ->
  all_chars is_space w1 = true ->
  op <> "" -> all_chars is_op_char op = true ->
  all_chars is_space w2 = true ->
  ver <> "" -> all_chars is_version_char ver = true ->
  starts_with_op ver = false ->
  parse_package_spec_list (nm +:+ w1 +:+ op +:+ w2 +:+ ver)
  = (o <- text_to_operator op;; Ok [mk_dep nm o (Version_of ver)]).
Proof.
  intros Hnm Hname Hw1 Hop Hops Hw2 Hver Hvers Hstart.
  unfold parse_package_spec_list. rewrite findall_strip.
  rewrite (findall_single _ _ (match_spec_entry _ _ _ _ _
             Hnm Hname Hw1 Hop Hops Hw2 Hver Hvers Hstart)).
  simpl. destruct (text_to_operator op); [|done]. simpl.
  by destruct ver.
Qed.

(** X19.  Operator characters at the end of the text, with no version
    behind them: of two or more the last one is read as the version and
    the others as the operator; a single one is left out and the name
    stands alone. *)
Theorem operator_without_version
    (nm op : string) (c : ascii) :
  nm <> "" -> all_chars is_name_char nm = true ->
  op <> "" -> all_chars is_op_char op = true -> is_op_char c = true ->
  parse_package_spec_list (nm +:+ op +:+ String c "")
  = (o <- text_to_operator op;;
     Ok [mk_dep nm o (Version_of (String c ""))])
  /\ parse_package_spec_list (nm +:+ String c "")
     = (o <- text_to_operator "";; Ok [mk_dep nm o Version_empty]).
Proof.
  intros Hnm Hname Hop Hops Hc. unfold parse_package_spec_list.
  rewrite !findall_strip. split.
  - pose proof (match_spec_trailing_operator nm op c Hnm Hname Hops Hc)
      as Hm.
    destruct op as [|b op']; [done|]. simpl is_empty_str in Hm.
    rewrite (findall_single _ _ Hm). simpl.
    by destruct (text_to_operator (String b op')).
  - pose proof (match_spec_trailing_operator nm "" c Hnm Hname eq_refl Hc)
      as Hm.
    rewrite app_empty_l in Hm. simpl is_empty_str in Hm.
    destruct nm as [|a nm']; [done|].
    rewrite app_cons, findall_step. rewrite <- app_cons, Hm.
    rewrite findall_skip by (by apply is_op_not_name).
    rewrite findall_empty. simpl.
    by destruct (text_to_operator "").
Qed.


End EntryProperties.

Lemma entry_with_operator_and_version_witness :
  @parse_package_spec_list string text_versions spec_operators
    ("glib-2.0" +:+ " " +:+ ">=" +:+ "  " +:+ "2.8.0")
  = (o <- spec_text_to_operator ">=";; Ok [mk_dep "glib-2.0" o "2.8.0"]).
Proof.
  apply (@entry_with_operator_and_version string text_versions
           spec_operators "glib-2.0" " " ">=" "  " "2.8.0");
    (reflexivity || discriminate).
Defined.

Lemma operator_without_version_witness :
  @parse_package_spec_list string text_versions spec_operators
    ("foo" +:+ ">" +:+ String "=" "")
  = (o <- spec_text_to_operator ">";; Ok [mk_dep "foo" o "="])
  /\ @parse_package_spec_list string text_versions spec_operators
       ("foo" +:+ String "=" "")
     = (o <- spec_text_to_operator "";; Ok [mk_dep "foo" o ""]).
Proof.
  apply (@operator_without_version string text_versions spec_operators
           "foo" ">" "=");
    (reflexivity || discriminate).
Defined.


(** ** What every parsed dependency looks like *)

Lemma all_chars_slice_to (p : ascii -> bool) (n : nat) (s : string) :
  all_chars p s = true -> all_chars p (slice_to n s) = true.
Proof.
  unfold slice_to. revert n. induction s as [|c s IH]; intros n Hs.
  - by destruct n.
  - destruct n as [|n]; [done|]. simpl in *.
    apply andb_true_iff in Hs as [-> Hs]. by apply IH.
Qed.

Lemma all_chars_last_str (p : ascii -> bool) (s : string) :
  all_chars p s = true -> all_chars p (last_str s) = true.
Proof.
  unfold last_str. induction s as [|c s IH]; [done|].
  intros [Hc Hs]%andb_true_iff.
  destruct s as [|b s]; [simpl; by rewrite Hc|].
  change (last_char (String c (String b s))) with (last_char (String b s)).
  by apply IH.
Qed.

Lemma last_str_not_empty (s : string) : s <> "" -> last_str s <> "".
Proof.
  intros Hs. unfold last_str.
  by destruct (last_char_is_Some s Hs) as [c ->].
Qed.

Lemma slice_drop_last_not_empty (s : string) :
  2 <= String.length s -> slice_drop_last 1 s <> "".
Proof.
  unfold slice_drop_last, slice_to.
  destruct s as [|a [|b s]]; simpl; [lia|lia|done].
Qed.

Lemma is_op_is_version (c : ascii) :
  is_op_char c = true -> is_version_char c = true.
Proof.
  intros Hc. unfold is_version_char.
  by rewrite (is_op_char_not_space c Hc), (is_op_char_not_comma c Hc).
Qed.

Lemma span_rest_not_empty (p : ascii -> bool) (s : string) :
  is_empty_str (span p s).1 = false -> (span p s).1 <> "".
Proof. by destruct (span p s).1. Qed.

Lemma match_group_ok (nm rest : string) :
  nm <> "" -> all_chars is_name_char nm = true ->
  groups_ok (match_group nm rest).1.
Proof.
  intros Hnm Hname. unfold match_group.
  assert (Hnone : groups_ok (nm, "", "", "")) by (simpl; auto).
  destruct (span is_space rest) as [w1 r1].
  pose proof (span_satisfies is_op_char r1) as Hops.
  destruct (span is_op_char r1) as [o r2]. cbn [fst] in Hops.
  destruct (is_empty_str o) eqn:Ho; [done|].
  destruct (span is_space r2) as [w2 r3].
  pose proof (span_satisfies is_version_char r3) as Hvers.
  destruct (span is_version_char r3) as [v r4]. cbn [fst] in Hvers.
  destruct (is_empty_str v) eqn:Hv; cbn [negb fst].
  - destruct (2 <=? String.length o)%nat eqn:Hlen; [|done].
    apply Nat.leb_le in Hlen. simpl.
    split; [done|]. split; [done|]. right.
    split; [by apply slice_drop_last_not_empty|].
    split; [by apply all_chars_slice_to|].
    split; [apply last_str_not_empty; by destruct o|].
    apply all_chars_last_str.
    eapply all_chars_impl; [|exact Hops]. apply is_op_is_version.
  - simpl. split; [done|]. split; [done|]. right.
    split; [by destruct o|]. split; [done|]. split; [by destruct v|done].
Qed.

Lemma match_spec_ok (s rest : string)
    (groups : string * string * string * string) :
  match_spec s = Some (groups, rest) -> groups_ok groups.
Proof.
  unfold match_spec.
  pose proof (span_satisfies is_name_char s) as Hname.
  destruct (span is_name_char s) as [nm r0]. cbn [fst] in Hname.
  destruct nm as [|a nm']; [done|]. simpl is_empty_str. cbv iota.
  pose proof (match_group_ok (String a nm') r0) as Hg.
  destruct r0 as [|c0 r0'].
  - intros [= <- _]. simpl. auto.
  - destruct (eqb_char c0 ",").
    + intros [= <- _]. simpl. auto.
    + intros [= Heq]. rewrite Heq in Hg. by apply Hg.
Qed.

Lemma findall_ok (s : string) : Forall groups_ok (findall s).
Proof.
  unfold findall. generalize (String.length s) as fuel. intros fuel.
  revert s. induction fuel as [|fuel IH]; intros s; [constructor|].
  destruct s as [|c s']; [constructor|]. simpl findall_fuel.
  destruct (match_spec (String c s')) as [[groups rest]|] eqn:Hm;
    [|apply IH].
  constructor; [by eapply match_spec_ok|apply IH].
Qed.

(** X21.  Every dependency [parse_package_spec_list] returns has a
    non-empty name of name characters, and either the operator of the
    empty operator text with the empty version, or the operator of a
    non-empty text of operator characters with the version of a non-empty
    version text: an operator is never read without a version, nor a
    version without an operator. *)
Theorem parsed_dependencies_are_well_formed
    {Version : Type} `{VersionOps Version} `{OperatorText}
    (value : string) (deps : list (Dependency Version)) :
  parse_package_spec_list value = Ok deps ->
  Forall (fun d =>
            name d <> "" /\ all_chars is_name_char (name d) = true
            /\ ((text_to_operator "" = Ok (operator d)
                 /\ version d = Version_empty)
                \/ exists o v,
                     o <> "" /\ all_chars is_op_char o = true
                     /\ v <> "" /\ all_chars is_version_char v = true
                     /\ text_to_operator o = Ok (operator d)
                     /\ version d = Version_of v))
         deps.
Proof.
  unfold parse_package_spec_list.
  pose proof (findall_ok (strip value)) as Hok.
  revert deps. induction Hok as [|[[[p0 p1] p2] p3] rest Hg _ IH];
    intros deps Hdeps.
  - injection Hdeps as <-. constructor.
  - simpl in Hdeps.
    destruct (text_to_operator p2) as [op|] eqn:Hop; [|done].
    simpl in Hdeps.
    destruct (dependencies_of_matches rest) as [ds|]; [|done].
    injection Hdeps as <-. constructor; [|by apply IH].
    destruct Hg as (Hp0 & Hname & [[-> ->]|(Hp2 & Hops & Hp3 & Hvers)]);
      simpl; (split; [done|]); (split; [done|]).
    + by left.
    + right. exists p2, p3. repeat (split; [done|]). by destruct p3.
Qed.

Lemma parsed_dependencies_witness :
  Forall (fun d : Dependency string =>
            name d <> "" /\ all_chars is_name_char (name d) = true
            /\ ((spec_text_to_operator "" = Ok (operator d)
                 /\ version d = "")
                \/ exists o v,
                     o <> "" /\ all_chars is_op_char o = true
                     /\ v <> "" /\ all_chars is_version_char v = true
                     /\ spec_text_to_operator o = Ok (operator d)
                     /\ version d = v))
         [mk_dep "a" ALWAYS_MATCH ""; mk_dep "b" GREATER_THAN_EQUAL "1.0"].
Proof.
  apply (@parsed_dependencies_are_well_formed string text_versions
           spec_operators "a, b >= 1.0").
  reflexivity.
Defined.

(** ** The index of packages *)

Lemma slice_to_from (n : nat) (s : string) :
  slice_to n s +:+ slice_from n s = s.
Proof.
  unfold slice_to. revert s. induction n as [|n IH]; intros s.
  - simpl. by destruct s.
  - destruct s as [|c s]; [done|]. simpl. by rewrite app_cons, IH.
Qed.

Lemma slice_from_app (x y : string) :
  slice_from (String.length x) (x +:+ y) = y.
Proof. induction x as [|a x IH]; [done|]. by rewrite app_cons. Qed.

(** A file name ends with [.pc] and gives the package name [name] exactly
    when it is [name] followed by [.pc]. *)
Lemma pc_file_of_name (filename name : string) :
  (endswith filename ".pc" = true /\ slice_drop_last 3 filename = name)
  <-> filename = name +:+ ".pc".
Proof.
  unfold endswith, slice_drop_last. split.
  - intros [[Hlen Hsuffix]%andb_true_iff <-].
    apply bool_decide_eq_true in Hsuffix. simpl String.length in Hsuffix.
    rewrite <- (slice_to_from (String.length filename - 3) filename) at 1.
    by rewrite Hsuffix.
  - intros ->. rewrite app_length_str. simpl String.length.
    replace (String.length name + 3 - 3) with (String.length name) by lia.
    rewrite slice_from_app, slice_to_app.
    split; [|done]. apply andb_true_iff. split.
    + apply Nat.leb_le. lia.
    + by apply bool_decide_eq_true.
Qed.

Section IndexProperties.

Context `{OsDir}.

Lemma append_package_entry (d filename name : string)
    (known : gmap string (list string)) :
  append_package d filename known !! name
  = if bool_decide (filename = name +:+ ".pc")
    then Some (with_path (join d filename) (known !! name))
    else known !! name.
Proof.
  unfold append_package, with_path.
  destruct (endswith filename ".pc") eqn:Hpc.
  - destruct (decide (slice_drop_last 3 filename = name)) as [Hname|Hname].
    + rewrite bool_decide_eq_true_2 by (by apply pc_file_of_name).
      rewrite Hname.
      destruct (known !! name) as [paths|] eqn:Hold.
      * case_bool_decide; [done|]. by rewrite lookup_insert_eq.
      * by rewrite lookup_insert_eq.
    + rewrite bool_decide_eq_false_2
        by (intros Hf; by apply pc_file_of_name in Hf as [_ ?]).
      destruct (known !! slice_drop_last 3 filename) as [paths|].
      * case_bool_decide; [done|]. by rewrite lookup_insert_ne.
      * by rewrite lookup_insert_ne.
  - rewrite bool_decide_eq_false_2; [done|].
    intros Hf. apply pc_file_of_name in Hf as [Hf _]. by rewrite Hf in Hpc.
Qed.

Lemma with_path_twice (full : string) (old : option (list string)) :
  with_path full (Some (with_path full old)) = with_path full old.
Proof.
  unfold with_path. destruct old as [paths|].
  - destruct (decide (full ∈ paths)) as [Hin|Hin].
    + by rewrite !(bool_decide_eq_true_2 (full ∈ paths)).
    + rewrite !(bool_decide_eq_false_2 (full ∈ paths)) by done.
      rewrite bool_decide_eq_true_2; [done|].
      apply elem_of_app. right. by apply list_elem_of_singleton.
  - rewrite bool_decide_eq_true_2; [done|]. by apply list_elem_of_singleton.
Qed.

Lemma append_files_entry (d name : string) (files : list string)
    (known : gmap string (list string)) :
  append_files d files known !! name
  = if bool_decide (name +:+ ".pc" ∈ files)
    then Some (with_path (join d (name +:+ ".pc")) (known !! name))
    else known !! name.
Proof.
  revert known. induction files as [|f fs IH]; intros known.
  - change (append_files d [] known) with known.
    rewrite bool_decide_eq_false_2; [done|]. by intros ?%elem_of_nil.
  - simpl append_files. rewrite IH, append_package_entry.
    destruct (decide (f = name +:+ ".pc")) as [->|Hf].
    + rewrite (bool_decide_eq_true_2 (_ = _)) by done.
      rewrite (bool_decide_eq_true_2 (_ ∈ _ :: _)) by apply list_elem_of_here.
      rewrite with_path_twice. by case_bool_decide.
    + rewrite (bool_decide_eq_false_2 (_ = _)) by done.
      destruct (decide (name +:+ ".pc" ∈ fs)) as [Hin|Hin].
      * rewrite !bool_decide_eq_true_2; [done| |done]. by right.
      * rewrite !bool_decide_eq_false_2; [done| |done].
        intros [Heq|Hfs]%elem_of_cons; [by apply Hf|by apply Hin].
Qed.

(** X22.  What [_append_packages] does to the entry of a name: when the
    directory lists the file of that name ([name.pc]), the path of the file
    in the directory is added at the end of the entry unless it is in it,
    and an entry is made for a new name; when the directory does not list
    it, the entry is as before.  Names that do not end with [.pc] change
    nothing. *)
Theorem append_packages_adds_the_pc_files_of_a_directory
    (self : PkgSearcher) (d name : string) :
  _known_pkgs (_append_packages self d) !! name
  = if bool_decide (name +:+ ".pc" ∈ listdir d)
    then Some (with_path (join d (name +:+ ".pc"))
                 (_known_pkgs self !! name))
    else _known_pkgs self !! name.
Proof. apply append_files_entry. Qed.

Lemma with_path_has (full : string) (old : option (list string)) :
  full ∈ with_path full old.
Proof.
  unfold with_path. destruct old as [paths|].
  - case_bool_decide; [done|]. apply elem_of_app. right.
    by apply list_elem_of_singleton.
  - by apply list_elem_of_singleton.
Qed.

Lemma with_path_extends (full : string) (paths : list string) :
  exists more,
    with_path full (Some paths) = (paths ++ more)%list
    /\ (NoDup paths -> NoDup (paths ++ more)).
Proof.
  unfold with_path. case_bool_decide as Hin.
  - exists []. by rewrite app_nil_r.
  - exists [full]. split; [done|]. intros Hnodup.
    apply NoDup_app. split; [done|]. split; [|apply NoDup_singleton].
    intros x Hx ->%list_elem_of_singleton. by apply Hin.
Qed.

Lemma append_packages_keeps (self : PkgSearcher) (d name : string)
    (paths : list string) :
  _known_pkgs self !! name = Some paths ->
  exists more,
    _known_pkgs (_append_packages self d) !! name
    = Some (paths ++ more)%list
    /\ (NoDup paths -> NoDup (paths ++ more)).
Proof.
  intros Hold. unfold _append_packages. simpl _known_pkgs.
  rewrite append_files_entry, Hold.
  case_bool_decide.
  - destruct (with_path_extends (join d (name +:+ ".pc")) paths)
      as (more & -> & Hnodup).
    by exists more.
  - exists []. by rewrite app_nil_r.
Qed.

Lemma append_packages_present (self : PkgSearcher) (d name : string) :
  name +:+ ".pc" ∈ listdir d ->
  exists paths,
    _known_pkgs (_append_packages self d) !! name = Some paths
    /\ join d (name +:+ ".pc") ∈ paths.
Proof.
  intros Hin. unfold _append_packages. simpl _known_pkgs.
  rewrite append_files_entry, bool_decide_eq_true_2 by done.
  eexists. split; [done|]. apply with_path_has.
Qed.

Lemma append_packages_nothing_new (self : PkgSearcher) (d : string) :
  (forall name,
      name +:+ ".pc" ∈ listdir d ->
      exists paths,
        _known_pkgs self !! name = Some paths
        /\ join d (name +:+ ".pc") ∈ paths) ->
  _append_packages self d = self.
Proof.
  intros Hall. destruct self as [known]. unfold _append_packages.
  f_equal. simpl in *. apply map_eq. intros name.
  rewrite append_files_entry. case_bool_decide as Hin; [|done].
  destruct (Hall name Hin) as (paths & -> & Hpath).
  unfold with_path. by rewrite bool_decide_eq_true_2.
Qed.

(** A directory scanned before adds nothing when it is scanned again,
    directly or after other directories. *)
Lemma second_scan_of_a_directory_adds_nothing
    (self : PkgSearcher) (d d' : string) :
  _append_packages (_append_packages self d) d = _append_packages self d
  /\ _append_packages (_append_packages (_append_packages self d) d') d
     = _append_packages (_append_packages self d) d'.
Proof.
  split.
  - apply append_packages_nothing_new. intros name Hin.
    by apply append_packages_present.
  - apply append_packages_nothing_new. intros name Hin.
    destruct (append_packages_present self d name Hin)
      as (paths & Hpaths & Hpath).
    destruct (append_packages_keeps _ d' name paths Hpaths)
      as (more & Hmore & _).
    exists (paths ++ more)%list. split; [done|].
    apply elem_of_app. by left.
Qed.

(** X23.  Scanning a directory keeps the paths a name has, in their
    order and at the front, and adds at most new ones behind them: a path
    found earlier keeps its priority, and a list without repetition stays
    without. *)
Theorem scan_keeps_the_priority_of_known_paths
    (self : PkgSearcher) (d name : string) (paths : list string) :
  _known_pkgs self !! name = Some paths ->
  exists more,
    _known_pkgs (_append_packages self d) !! name
    = Some (paths ++ more)%list
    /\ (NoDup paths -> NoDup (paths ++ more)).
Proof. apply append_packages_keeps. Qed.

(** X24.  Two directories that both list the file of a name, scanned one
    after the other into an empty index: the search for the name returns
    the path in the first directory, then the path in the second. *)
Theorem search_prefers_the_directory_scanned_first
    (d1 d2 name : string) (only : bool) :
  name +:+ ".pc" ∈ listdir d1 ->
  name +:+ ".pc" ∈ listdir d2 ->
  join d1 (name +:+ ".pc") <> join d2 (name +:+ ".pc") ->
  search_for_pcfile
    (_append_packages (_append_packages (mk_searcher ∅) d1) d2)
    (mk_options false only) name
  = [join d1 (name +:+ ".pc"); join d2 (name +:+ ".pc")].
Proof.
  intros H1 H2 Hne. unfold search_for_pcfile. simpl prefer_uninstalled.
  cbv iota. unfold _append_packages. simpl _known_pkgs.
  rewrite !append_files_entry.
  rewrite !bool_decide_eq_true_2 by done.
  rewrite lookup_empty. unfold with_path.
  rewrite bool_decide_eq_false_2; [done|].
  intros Hin%list_elem_of_singleton. by apply Hne.
Qed.

End IndexProperties.

Lemma scan_keeps_the_priority_witness :
  exists more,
    _known_pkgs
      (@_append_packages (dirs_of sample_dirs)
         (mk_searcher {["foo" := ["/opt/foo.pc"]]})
         "/usr/lib/pkgconfig") !! "foo"
    = Some (["/opt/foo.pc"] ++ more)%list
    /\ (NoDup ["/opt/foo.pc"] -> NoDup (["/opt/foo.pc"] ++ more)).
Proof.
  apply (@scan_keeps_the_priority_of_known_paths (dirs_of sample_dirs)
           (mk_searcher {["foo" := ["/opt/foo.pc"]]})
           "/usr/lib/pkgconfig" "foo" ["/opt/foo.pc"]).
  reflexivity.
Defined.

Lemma search_prefers_the_directory_scanned_first_witness :
  search_for_pcfile
    (@_append_packages (dirs_of sample_dirs)
       (@_append_packages (dirs_of sample_dirs) (mk_searcher ∅)
          "/usr/lib/pkgconfig")
       "/usr/local/lib/pkgconfig")
    (mk_options false false) "foo"
  = ["/usr/lib/pkgconfig/foo.pc"; "/usr/local/lib/pkgconfig/foo.pc"].
Proof.
  apply (@search_prefers_the_directory_scanned_first (dirs_of sample_dirs)
           "/usr/lib/pkgconfig" "/usr/local/lib/pkgconfig" "foo" false).
  - vm_compute. apply list_elem_of_here.
  - vm_compute. apply list_elem_of_here.
  - discriminate.
Defined.

(** ** More on the search *)

(** X25.  Without "prefer uninstalled" the search for a name returns the
    paths of the plain name, or the empty list for a name that is not in
    the index: "uninstalled only" alone has no effect, and neither has an
    entry for the uninstalled variant. *)
Theorem uninstalled_only_needs_prefer_uninstalled
    (self : PkgSearcher) (pkgname : string) (only : bool)
    (variant : option (list string)) :
  search_for_pcfile self (mk_options false only) pkgname
  = default [] (_known_pkgs self !! pkgname)
  /\ search_for_pcfile
       (mk_searcher
          (partial_alter (fun _ => variant) (pkgname +:+ "-uninstalled")
             (_known_pkgs self)))
       (mk_options false only) pkgname
     = search_for_pcfile self (mk_options false false) pkgname.
Proof.
  unfold search_for_pcfile. simpl. split.
  - by destruct (_known_pkgs self !! pkgname).
  - rewrite lookup_partial_alter_ne; [done|].
    apply uninstalled_name_ne.
Qed.

Section MoreSearchProperties.

Context {Version Package : Type} `{VersionOps Version} `{OperatorText}
        `{OsPath} `{PackageOps Package Version}.

(** What [load_packages] returns when it returns: the packages it was
    given and the candidates that parse. *)
Lemma load_packages_returns (pcfiles : list string)
    (globals : gmap string string) (pkgs loaded : list Package) :
  load_packages pcfiles globals pkgs = Ok loaded ->
  loaded = (pkgs ++ parsed_packages pcfiles globals)%list.
Proof.
  revert pkgs. induction pcfiles as [|pcfile rest IH]; intros pkgs Hload.
  - injection Hload as <-. by rewrite app_nil_r.
  - simpl in Hload. unfold parsed_packages. simpl.
    destruct (Package_new pcfile globals) as [pkg|e] eqn:Hnew.
    + rewrite (IH _ Hload). by rewrite <- app_assoc.
    + destruct e; try done. by apply IH.
Qed.

Lemma parsed_packages_from (pcfiles : list string)
    (globals : gmap string string) (pkg : Package) :
  pkg ∈ parsed_packages pcfiles globals ->
  exists pcfile, pcfile ∈ pcfiles /\ Package_new pcfile globals = Ok pkg.
Proof.
  unfold parsed_packages. intros Hin.
  apply list_elem_of_omap in Hin as (pcfile & Hfile & Hpkg).
  exists pcfile. split; [done|].
  by destruct (Package_new pcfile globals) as [p|]; simplify_eq.
Qed.

(** X26.  A package [search_for_package] returns was parsed from one of
    the candidates, and its version meets the requirement. *)
Theorem found_package_is_a_candidate_that_meets_the_requirement
    (self : PkgSearcher) (options : Options) (dep : Dependency Version)
    (globals : gmap string string) (pkg : Package) :
  search_for_package self options dep globals = Ok pkg ->
  (exists pcfile,
      pcfile ∈ candidate_pcfiles self options dep
      /\ Package_new pcfile globals = Ok pkg)
  /\ meets_requirement dep (properties_version pkg) = true.
Proof.
  unfold search_for_package. intros Hsearch.
  destruct (is_nil (candidate_pcfiles self options dep)); [done|].
  destruct (load_packages _ globals []) as [loaded|] eqn:Hload; [|done].
  simpl in Hsearch. apply load_packages_returns in Hload.
  rewrite app_nil_l in Hload. subst loaded.
  destruct (is_nil (parsed_packages _ globals) && _); [done|].
  destruct (List.filter _ _) as [|first others] eqn:Hfilter; [done|].
  injection Hsearch as ->.
  assert (Hin : In pkg (List.filter
                  (fun p => meets_requirement dep (properties_version p))
                  (parsed_packages (candidate_pcfiles self options dep)
                     globals)))
    by (rewrite Hfilter; by left).
  apply filter_In in Hin as [Hin Hmeets]. split; [|done].
  apply parsed_packages_from. by apply list_elem_of_In.
Qed.

Lemma load_packages_fails (before after : list string) (pcfile : string)
    (globals : gmap string string) (pkgs : list Package) (e : exn) :
  Forall (parses_or_unreadable globals) before ->
  Package_new pcfile globals = Raise e ->
  (forall strerror, e <> IOError strerror) ->
  load_packages (before ++ pcfile :: after) globals pkgs
  = Raise match e with
          | UndefinedVarError variable _ =>
              UndefinedVarError variable (Some pcfile)
          | _ => e
          end.
Proof.
  intros Hbefore Hfail Hio. revert pkgs.
  induction Hbefore as [|f before [[pkg Hpkg]|[msg Hmsg]] _ IH];
    intros pkgs; simpl.
  - rewrite Hfail. destruct e; try done. by destruct (Hio strerror).
  - rewrite Hpkg. apply IH.
  - rewrite Hmsg. apply IH.
Qed.

(** X27.  The first candidate that fails otherwise than by not opening
    decides the search: an undefined variable is raised with the path of
    that candidate, any other error as it is, whatever candidates parsed
    before it and whatever follows. *)
Theorem first_broken_candidate_fails_the_search
    (self : PkgSearcher) (options : Options) (dep : Dependency Version)
    (globals : gmap string string) (before after : list string)
    (pcfile : string) (e : exn) :
  candidate_pcfiles self options dep = (before ++ pcfile :: after)%list ->
  Forall (parses_or_unreadable globals) before ->
  Package_new pcfile globals = Raise e ->
  (forall strerror, e <> IOError strerror) ->
  search_for_package self options dep globals
  = Raise match e with
          | UndefinedVarError variable _ =>
              UndefinedVarError variable (Some pcfile)
          | _ => e
          end.
Proof.
  intros Hc Hbefore Hfail Hio. unfold search_for_package. rewrite Hc.
  rewrite (load_packages_fails before after pcfile globals [] e) by done.
  by destruct before.
Qed.

(** X28.  A dependency whose name is a [.pc] file on disk is looked up in
    that file alone: the index and the options play no part. *)
Theorem explicit_pc_file_bypasses_the_index
    (self self' : PkgSearcher) (options options' : Options)
    (dep : Dependency Version) (globals : gmap string string) :
  isfile (name dep) = true ->
  (splitext (name dep)).2 = ".pc" ->
  candidate_pcfiles self options dep = [name dep]
  /\ search_for_package self options dep globals
     = search_for_package self' options' dep globals.
Proof.
  intros Hfile Hext.
  assert (Hc : forall s o, candidate_pcfiles s o dep = [name dep]).
  { intros s o. unfold candidate_pcfiles.
    by rewrite Hfile, bool_decide_eq_true_2. }
  split; [apply Hc|]. unfold search_for_package. by rewrite !Hc.
Qed.

End MoreSearchProperties.

Lemma found_package_witness :
  (exists pcfile,
      pcfile ∈ @candidate_pcfiles string no_files sample_searcher
                 (mk_options false false)
                 (mk_dep "bar" GREATER_THAN_EQUAL "2.0")
      /\ @Package_new _ _ (disk_packages sample_disk) pcfile ∅
         = Ok (mk_package "/usr/local/lib/pkgconfig/bar.pc" "2.0"))
  /\ @meets_requirement string text_versions
       (mk_dep "bar" GREATER_THAN_EQUAL "2.0")
       (pc_version (mk_package "/usr/local/lib/pkgconfig/bar.pc" "2.0"))
     = true.
Proof.
  apply (@found_package_is_a_candidate_that_meets_the_requirement
           string SamplePackage text_versions spec_operators no_files
           (disk_packages sample_disk) sample_searcher
           (mk_options false false)
           (mk_dep "bar" GREATER_THAN_EQUAL "2.0") ∅
           (mk_package "/usr/local/lib/pkgconfig/bar.pc" "2.0")).
  reflexivity.
Defined.

Lemma first_broken_candidate_witness :
  sample_search (mk_options false false) (mk_dep "qux" ALWAYS_MATCH "")
  = Raise (UndefinedVarError "prefix" (Some "/opt/lib/pkgconfig/qux.pc")).
Proof.
  apply (@first_broken_candidate_fails_the_search
           string SamplePackage text_versions spec_operators no_files
           (disk_packages sample_disk) sample_searcher
           (mk_options false false) (mk_dep "qux" ALWAYS_MATCH "") ∅
           ["/usr/lib/pkgconfig/qux.pc"] [] "/opt/lib/pkgconfig/qux.pc"
           (UndefinedVarError "prefix" None)).
  - reflexivity.
  - constructor; [|constructor]. left. by eexists.
  - reflexivity.
  - discriminate.
Defined.

Lemma explicit_pc_file_witness :
  @candidate_pcfiles string explicit_file sample_searcher
    (mk_options true true) (mk_dep "/src/foo/foo.pc" ALWAYS_MATCH "")
  = ["/src/foo/foo.pc"]
  /\ @search_for_package string SamplePackage text_versions spec_operators
       explicit_file (disk_packages sample_disk) sample_searcher
       (mk_options true true) (mk_dep "/src/foo/foo.pc" ALWAYS_MATCH "") ∅
     = @search_for_package string SamplePackage text_versions spec_operators
         explicit_file (disk_packages sample_disk) (mk_searcher ∅)
         (mk_options false false)
         (mk_dep "/src/foo/foo.pc" ALWAYS_MATCH "") ∅.
Proof.
  apply (@explicit_pc_file_bypasses_the_index
           string SamplePackage text_versions spec_operators
           explicit_file (disk_packages sample_disk)
           sample_searcher (mk_searcher ∅)
           (mk_options true true) (mk_options false false)
           (mk_dep "/src/foo/foo.pc" ALWAYS_MATCH "") ∅);
    reflexivity.
Defined.

(** ** The search directories *)

Lemma extends_refl (self : PkgSearcher) : extends self self.
Proof. intros name paths Hp. exists []. by rewrite app_nil_r. Qed.

Lemma extends_trans (s3 s2 s1 : PkgSearcher) :
  extends s3 s2 -> extends s2 s1 -> extends s3 s1.
Proof.
  intros H32 H21 name paths Hp.
  destruct (H21 name paths Hp) as (more & Hmore).
  destruct (H32 name _ Hmore) as (more' & Hmore').
  exists (more ++ more')%list. by rewrite app_assoc.
Qed.

Section SearchDirsProperties.

Context `{OsDir} `{Platform}.

Lemma append_packages_extends (self : PkgSearcher) (d : string) :
  extends (_append_packages self d) self.
Proof.
  intros name paths Hp.
  destruct (append_packages_keeps self d name paths Hp) as (more & ? & _).
  by exists more.
Qed.

Lemma scan_app (wanted : string -> bool) (l1 l2 : list string)
    (self : PkgSearcher) :
  scan wanted (l1 ++ l2) self = scan wanted l2 (scan wanted l1 self).
Proof.
  revert self. induction l1 as [|d l1 IH]; intros self; [done|]. apply IH.
Qed.

Lemma scan_extends (wanted : string -> bool) (dirs : list string)
    (self : PkgSearcher) :
  extends (scan wanted dirs self) self.
Proof.
  revert self. induction dirs as [|d dirs IH]; intros self.
  - apply extends_refl.
  - simpl. eapply extends_trans; [apply IH|].
    destruct (wanted d); [apply append_packages_extends|apply extends_refl].
Qed.

Lemma scan_registry_extends (values : list (string * bool))
    (self : PkgSearcher) :
  extends (scan_registry values self) self.
Proof.
  revert self. induction values as [|[val reg_sz] values IH]; intros self.
  - apply extends_refl.
  - simpl. eapply extends_trans; [apply IH|].
    destruct (reg_sz && isdir val);
      [apply append_packages_extends|apply extends_refl].
Qed.

Lemma scan_global_extends (dirs : option (list string))
    (self : PkgSearcher) :
  extends (scan_global dirs self) self.
Proof.
  destruct dirs as [[|d rest]|]; try apply extends_refl.
  apply scan_extends.
Qed.

(** The part of [_init_search_dirs] after the list of [config_path]. *)
Lemma init_search_dirs_extends (self : PkgSearcher)
    (globals : SearchGlobals) (options : SearchOptions) :
  extends (_init_search_dirs self globals options)
          (scan_global (config_path globals) self).
Proof.
  unfold _init_search_dirs.
  eapply extends_trans; [apply scan_extends|].
  eapply extends_trans.
  { destruct pc_path as [[|c path]|]; apply scan_extends. }
  eapply extends_trans.
  { destruct win32; [apply scan_registry_extends|apply extends_refl]. }
  apply scan_global_extends.
Qed.

(** X29.  The first directory of [config_path] has priority: when it is a
    directory and lists the file of a name, the entry of the name in an
    index built from an empty one starts with the path in that directory,
    whatever the other settings add; and a search that comes to the plain
    name, "prefer uninstalled" being off or there being no uninstalled
    entry and "uninstalled only" being off, returns that entry. *)
Theorem first_config_path_directory_has_priority
    (globals : SearchGlobals) (options : SearchOptions)
    (d name : string) (rest : list string) :
  config_path globals = Some (d :: rest) ->
  d <> "" -> isdir d = true ->
  name +:+ ".pc" ∈ listdir d ->
  exists more,
    _known_pkgs (_init_search_dirs (mk_searcher ∅) globals options) !! name
    = Some (join d (name +:+ ".pc") :: more)
    /\ forall search_options : Options,
         prefer_uninstalled search_options = false
         \/ (_known_pkgs (_init_search_dirs (mk_searcher ∅) globals options)
               !! (name +:+ "-uninstalled") = None
             /\ uninstalled_only search_options = false) ->
         search_for_pcfile
           (_init_search_dirs (mk_searcher ∅) globals options)
           search_options name
         = join d (name +:+ ".pc") :: more.
Proof.
  intros Hconfig Hd Hdir Hlisted.
  assert (Hfirst :
    _known_pkgs (_append_packages (mk_searcher ∅) d) !! name
    = Some [join d (name +:+ ".pc")]).
  { unfold _append_packages. simpl _known_pkgs.
    rewrite append_files_entry, bool_decide_eq_true_2 by done.
    by rewrite lookup_empty. }
  assert (Hext : extends (_init_search_dirs (mk_searcher ∅) globals options)
                         (_append_packages (mk_searcher ∅) d)).
  { eapply extends_trans; [apply init_search_dirs_extends|].
    rewrite Hconfig.
    change (scan_global (Some (d :: rest)) (mk_searcher ∅))
      with (scan named_dir rest
              (if named_dir d then _append_packages (mk_searcher ∅) d
               else mk_searcher ∅)).
    assert (named_dir d = true) as ->.
    { unfold named_dir. rewrite Hdir. by destruct d. }
    apply scan_extends. }
  destruct (Hext name _ Hfirst) as (more & Hmore).
  exists more. split; [exact Hmore|].
  intros search_options Hplain. unfold search_for_pcfile. rewrite Hmore.
  destruct Hplain as [-> | [-> ->]]; [done|].
  by destruct (prefer_uninstalled search_options).
Qed.

Lemma scanned_extends (d : string) (later earlier : PkgSearcher) :
  scanned d earlier -> extends later earlier -> scanned d later.
Proof.
  intros Hs Hext name Hin. destruct (Hs name Hin) as (paths & Hp & Hpath).
  destruct (Hext name paths Hp) as (more & Hmore).
  exists (paths ++ more)%list. split; [done|]. apply elem_of_app. by left.
Qed.

Lemma scan_twice (wanted : string -> bool) (l1 l2 l3 : list string)
    (d : string) (self : PkgSearcher) :
  scan wanted (l1 ++ d :: l2 ++ d :: l3) self
  = scan wanted (l1 ++ d :: l2 ++ l3) self.
Proof.
  rewrite !scan_app. simpl scan. rewrite !scan_app. simpl scan.
  destruct (wanted d); [|done]. f_equal.
  apply append_packages_nothing_new.
  apply (scanned_extends d _ (_append_packages (scan wanted l1 self) d)).
  - intros name Hin. by apply append_packages_present.
  - apply scan_extends.
Qed.

(** X30.  A directory that stands twice in [config_path] counts once,
    where it stands first: the index [_init_search_dirs] builds is the one
    it builds without the second occurrence. *)
Theorem directory_listed_twice_is_scanned_once
    (self : PkgSearcher) (l1 l2 l3 : list string) (d : string)
    (libdir : option (list string)) (prefix : option string)
    (options : SearchOptions) :
  _init_search_dirs self
    (mk_globals (Some (l1 ++ d :: l2 ++ d :: l3)%list) libdir prefix) options
  = _init_search_dirs self
      (mk_globals (Some (l1 ++ d :: l2 ++ l3)%list) libdir prefix) options.
Proof.
  unfold _init_search_dirs. simpl config_path. simpl config_libdir.
  simpl globals_prefix.
  assert (Hscan :
    scan_global (Some (l1 ++ d :: l2 ++ d :: l3)%list) self
    = scan_global (Some (l1 ++ d :: l2 ++ l3)%list) self).
  { assert (Hglobal : forall dirs,
               scan_global (Some dirs) self = scan named_dir dirs self)
      by (by intros [|? ?]).
    rewrite !Hglobal. apply scan_twice. }
  by rewrite Hscan.
Qed.

End SearchDirsProperties.

Lemma first_config_path_directory_witness :
  exists more,
    _known_pkgs
      (@_init_search_dirs (dirs_of sample_dirs) (posix_with sample_dirs)
         (mk_searcher ∅)
         (mk_globals (Some ["/usr/local/lib/pkgconfig"; "/nowhere"])
            None None)
         (mk_search_options false ["/usr/lib/pkgconfig"])) !! "foo"
    = Some ("/usr/local/lib/pkgconfig/foo.pc" :: more)
    /\ search_for_pcfile
         (@_init_search_dirs (dirs_of sample_dirs) (posix_with sample_dirs)
            (mk_searcher ∅)
            (mk_globals (Some ["/usr/local/lib/pkgconfig"; "/nowhere"])
               None None)
            (mk_search_options false ["/usr/lib/pkgconfig"]))
         (mk_options true false) "foo"
       = "/usr/local/lib/pkgconfig/foo.pc" :: more.
Proof.
  destruct (@first_config_path_directory_has_priority
              (dirs_of sample_dirs) (posix_with sample_dirs)
              (mk_globals (Some ["/usr/local/lib/pkgconfig"; "/nowhere"])
                 None None)
              (mk_search_options false ["/usr/lib/pkgconfig"])
              "/usr/local/lib/pkgconfig" "foo" ["/nowhere"])
    as (more & Hentry & Hsearch).
  - reflexivity.
  - discriminate.
  - reflexivity.
  - vm_compute. apply list_elem_of_here.
  - exists more. split; [exact Hentry|].
    apply Hsearch. right. split; reflexivity.
Defined.
